(** * Clarity DOM mirroring: a shallow embedding of
      packages/clarity-js/src/insight/snapshot.ts and
      packages/clarity-js/src/layout/node.ts

    Nodes are object identities ([nat]); the live document is a store
    from identities to node records.  JavaScript maps keyed by nodes
    (the WeakMap [idMap]) are stdpp [gmap]s.  Calls into collaborator
    modules that are not part of these two files (event, mutation,
    dimension, schema, internal, encode) are recorded as events of an
    output trace. *)

From Stdlib Require Import ZArith NArith String Ascii List Lia DecimalString Sorted.
From stdpp Require Import base gmap strings list.

Open Scope string_scope.

(* ------------------------------------------------------------------ *)
(** ** The host document (platform model) *)

Module Dom.

Definition node := nat.

Inductive NodeType :=
| ELEMENT_NODE
| TEXT_NODE
| COMMENT_NODE
| DOCUMENT_NODE
| DOCUMENT_TYPE_NODE
| DOCUMENT_FRAGMENT_NODE.

Definition NodeType_eqb (a b : NodeType) : bool :=
  match a, b with
  | ELEMENT_NODE, ELEMENT_NODE | TEXT_NODE, TEXT_NODE
  | COMMENT_NODE, COMMENT_NODE | DOCUMENT_NODE, DOCUMENT_NODE
  | DOCUMENT_TYPE_NODE, DOCUMENT_TYPE_NODE
  | DOCUMENT_FRAGMENT_NODE, DOCUMENT_FRAGMENT_NODE => true
  | _, _ => false
  end.

(** [sheet.cssRules] either yields the serialized [cssText] of each rule
    or raises an exception, identified by its [name]. *)
Inductive CssRules :=
| Rules (cssText : list string)
| Raises (name : string).

Record Location := mkLocation {
  protocol : string;
  host : string;
  pathname : string
}.

(** The properties of a DOM node that the two modules read.  Fields that
    do not apply to a node kind hold a neutral value ([""], [None], [[]]). *)
Record DNode := mkDNode {
  nodeType : NodeType;
  tagName : string;                    (* Element.tagName *)
  namespaceURI : string;
  nodeValue : string;                  (* Text.nodeValue *)
  parentNode : option node;
  childNodes : list node;              (* firstChild / nextSibling chain *)
  attributes : list (string * string); (* Element.attributes, in order *)
  ownerDocument : node;
  documentElement : option node;       (* Document.documentElement *)
  location : option Location;          (* Document.location *)
  dt_name : string;                    (* DocumentType.name *)
  dt_publicId : string;
  dt_systemId : string;
  textContent : string;
  input_value : string;                (* HTMLInputElement.value *)
  script_text : string;                (* HTMLScriptElement.text *)
  sheet : option CssRules;             (* HTMLStyleElement.sheet *)
  shadowRoot : option node;            (* Element.shadowRoot (open) *)
  shadow_host : option node;           (* ShadowRoot.host *)
  native_constructor : bool;           (* constructor source has [native code] *)
  contentDocument : option node;       (* HTMLIFrameElement *)
  contentWindow : option node;
  readyState : string                  (* of a document *)
}.

Definition blank (t : NodeType) : DNode :=
  mkDNode t "" "" "" None [] [] 0 None None "" "" "" "" "" "" None None None
    false None None "".

Definition store := gmap node DNode.

Definition get (dom : store) (n : node) : DNode :=
  default (blank COMMENT_NODE) (dom !! n).

(** [node.parentElement]: the parent when it is an element. *)
Definition parentElement (dom : store) (n : node) : option node :=
  match parentNode (get dom n) with
  | Some p => if NodeType_eqb (nodeType (get dom p)) ELEMENT_NODE then Some p else None
  | None => None
  end.

Fixpoint prev_in (n : node) (prev : option node) (l : list node) : option node :=
  match l with
  | [] => None
  | x :: l' => if Nat.eqb x n then prev else prev_in n (Some x) l'
  end.

(** [node.previousSibling] *)
Definition previousSibling (dom : store) (n : node) : option node :=
  match parentNode (get dom n) with
  | Some p => prev_in n None (childNodes (get dom p))
  | None => None
  end.

Definition children (dom : store) (n : node) : list node := childNodes (get dom n).

(** Plain JavaScript objects with string values, as built by
    [output[name] = value], are lists of (key, value) pairs in the order
    in which [[OwnPropertyKeys]] enumerates them.  [k in obj] and
    [obj[k]] read the list; the keys the code reads ("value", "type",
    "property", "name", "content", "src", "href", "rel") are not
    properties of Object.prototype. *)
Fixpoint lookup_attr (k : string) (l : list (string * string)) : option string :=
  match l with
  | [] => None
  | (k', v) :: l' => if String.eqb k k' then Some v else lookup_attr k l'
  end.

Definition has_key (k : string) (l : list (string * string)) : bool :=
  match lookup_attr k l with Some _ => true | None => false end.

(** An array index: a canonical decimal numeral (no sign, no leading
    zero other than "0" itself) whose value is below 2^32 - 1. *)
Definition array_index (k : string) : option N :=
  match NilZero.uint_of_string k with
  | Some u =>
      let i := N.of_uint u in
      if andb (String.eqb (NilZero.string_of_uint (N.to_uint i)) k) (N.ltb i 4294967295)
      then Some i else None
  | None => None
  end.

Definition is_index (k : string) : bool :=
  match array_index k with Some _ => true | None => false end.

(** Assignment to an existing key: the key keeps its position. *)
Fixpoint update_attr (k v : string) (l : list (string * string)) : list (string * string) :=
  match l with
  | [] => [(k, v)]
  | (k', v') :: l' => if String.eqb k k' then (k, v) :: l' else (k', v') :: update_attr k v l'
  end.

(** A new array-index key [k] of value [i] goes among the leading
    array-index keys, in ascending numeric order. *)
Fixpoint insert_index (i : N) (k v : string) (l : list (string * string))
  : list (string * string) :=
  match l with
  | [] => [(k, v)]
  | (k', v') :: l' =>
      match array_index k' with
      | Some j => if N.ltb j i then (k', v') :: insert_index i k v l' else (k, v) :: l
      | None => (k, v) :: l
      end
  end.

(** [obj[k] = v] on a plain object.  Own keys are enumerated array
    indices first, in ascending numeric order, then the other keys in
    the order they were created.  An assignment to [__proto__] calls
    the setter of Object.prototype, which ignores a string value: no
    key is created. *)
Definition set_attr (k v : string) (l : list (string * string)) : list (string * string) :=
  if String.eqb k "__proto__" then l
  else if has_key k l then update_attr k v l
  else match array_index k with
       | Some i => insert_index i k v l
       | None => app l [(k, v)]
       end.

End Dom.
Import Dom.

(* ------------------------------------------------------------------ *)
(** ** insight/snapshot.ts *)

Module Snapshot.

(** [Constant.DocumentTag] and [Constant.TextTag] of @clarity-types/layout;
    only their being non-empty strings matters to the code below. *)
Definition DocumentTag := "*D".
Definition TextTag := "*T".

(** [NodeInfo]: [{ tag, attributes, value }]; [None] is [null]. *)
Record NodeInfo := mkInfo {
  tag : option string;
  info_attributes : option (list (string * string));
  info_value : option string
}.

(** One entry of [values].  [parent] and [previous] are [None] both for
    [null] and for a [WeakMap.get] miss ([undefined]).  The constant
    [children], [selector], [hash], [region] and [metadata] fields are
    left out. *)
Record NodeValue := mkValue {
  nv_id : Z;
  nv_parent : option Z;
  nv_previous : option Z;
  nv_data : NodeInfo
}.

(** Module state: [values], the counter [index] and the WeakMap [idMap]. *)
Record State := mkState {
  values : list NodeValue;
  index : Z;
  idMap : gmap node Z
}.

(** [let index = 1; let idMap = null] followed by the first [reset]. *)
Definition init_state : State := mkState [] 1 ∅.

(** [reset()]: a new WeakMap; [index] is left as it is. *)
Definition reset (s : State) : State := mkState (values s) (index s) ∅.

Definition set_values (v : list NodeValue) (s : State) : State :=
  mkState v (index s) (idMap s).

(** [getId(node)] for a non-null node. *)
Definition getId_node (n : node) (s : State) : Z * State :=
  match idMap s !! n with
  | Some i => (i, s)
  | None => (index s, mkState (values s) (index s + 1) (<[n := index s]> (idMap s)))
  end.

(** [getId(node)]: [null] gives [null]. *)
Definition getId (n : option node) (s : State) : option Z * State :=
  match n with
  | None => (None, s)
  | Some n' => let (i, s') := getId_node n' s in (Some i, s')
  end.

(** [start()]: reset, then pre-discover the page root. *)
Definition start (dom : store) (document : node) (s : State) : State :=
  snd (getId (documentElement (get dom document)) (reset s)).

Definition stop (s : State) : State := reset s.

(** JavaScript truthiness of [data.tag]. *)
Definition tag_truthy (t : option string) : bool :=
  match t with Some x => negb (String.eqb x "") | None => false end.

(** [add(node, parent, data)] *)
Definition add (dom : store) (n : node) (parent : option node) (data : NodeInfo)
    (s : State) : State :=
  if tag_truthy (tag data) then
    let (id, s1) := getId_node n s in
    let parentId := match parent with Some p => idMap s1 !! p | None => None end in
    let previous := match previousSibling dom n with
                    | Some q => idMap s1 !! q | None => None end in
    mkState (app (values s1) [mkValue id parentId previous data]) (index s1) (idMap s1)
  else s.

(** [getAttributes(element)] of this module: every attribute, in order. *)
Definition getAttributes (attrs : list (string * string)) : list (string * string) :=
  fold_left (fun out '(k, v) => set_attr k v out) attrs [].

(** [node.parentElement ? node.parentElement : node.parentNode ? node.parentNode : null] *)
Definition traverse_parent (dom : store) (n : node) : option node :=
  match parentElement dom n with
  | Some p => Some p
  | None => match parentNode (get dom n) with Some p => Some p | None => None end
  end.

(** The [switch (type)] of one loop iteration of [traverse]. *)
Definition classify (dom : store) (n : node) (s : State) : NodeInfo :=
  let d := get dom n in
  match nodeType d with
  | DOCUMENT_TYPE_NODE =>
      mkInfo (Some DocumentTag)
        (Some [("name", dt_name d); ("publicId", dt_publicId d); ("systemId", dt_systemId d)])
        None
  | TEXT_NODE =>
      let t := match traverse_parent dom n with
               | Some p => match idMap s !! p with
                           | Some i => if Z.eqb i 0 then None else Some TextTag
                           | None => None
                           end
               | None => None
               end in
      mkInfo t None (Some (nodeValue d))
  | ELEMENT_NODE =>
      let t := if existsb (String.eqb (tagName d)) ["NOSCRIPT"; "SCRIPT"; "STYLE"]
               then None else Some (tagName d) in
      mkInfo t (Some (getAttributes (attributes d))) None
  | _ => mkInfo None None None
  end.

(** Processing of one dequeued node. *)
Definition process (dom : store) (s : State) (n : node) : State :=
  add dom n (traverse_parent dom n) (classify dom n s) s.

(** [traverse(root)]: the [while (queue.length > 0)] loop, run with
    [fuel] iterations at most.  The inner loop over
    [firstChild]/[nextSibling] appends the children in order. *)
Fixpoint traverse_loop (dom : store) (fuel : nat) (queue : list node) (s : State) : State :=
  match fuel with
  | O => s
  | S f =>
      match queue with
      | [] => s
      | n :: rest => traverse_loop dom f (rest ++ children dom n) (process dom s n)
      end
  end.

Definition traverse (dom : store) (fuel : nat) (root : node) (s : State) : State :=
  traverse_loop dom fuel [root] s.

(** [snapshot()]: [values = []; traverse(document); encode(Event.Snapshot)].
    The model returns the state whose [values] are handed to the encoder. *)
Definition snapshot (dom : store) (fuel : nat) (document : node) (s : State) : State :=
  traverse dom fuel document (set_values [] s).

(** Order in which the loop dequeues nodes. *)
Fixpoint visit (dom : store) (fuel : nat) (queue : list node) : list node :=
  match fuel with
  | O => []
  | S f =>
      match queue with
      | [] => []
      | n :: rest => n :: visit dom f (rest ++ children dom n)
      end
  end.

(** Level order of the tree below a frontier: a specification of a
    breadth-first walk, [k] levels deep. *)
Fixpoint levels (dom : store) (k : nat) (frontier : list node) : list node :=
  match k with
  | O => []
  | S k' => frontier ++ levels dom k' (concat (map (children dom) frontier))
  end.

Fixpoint frontier_after (dom : store) (k : nat) (frontier : list node) : list node :=
  match k with
  | O => frontier
  | S k' => frontier_after dom k' (concat (map (children dom) frontier))
  end.

(** A [UIEvent], as far as [target] reads it. *)
Record UIEvent := mkUIEvent {
  composed : bool;
  composedPath : option (list node);  (* [None]: no [composedPath] method *)
  evt_target : node
}.

(** [target(evt)]; [None] is a [null] [documentElement]. *)
Definition target (dom : store) (evt : UIEvent) : option node :=
  let path := if composed evt then composedPath evt else None in
  let n := match path with Some (x :: _) => x | _ => evt_target evt end in
  if NodeType_eqb (nodeType (get dom n)) DOCUMENT_NODE then documentElement (get dom n)
  else Some n.

(** [Privacy.Sensitive] and [Privacy.Snapshot], the two levels
    [metadata] hands out. *)
Inductive Privacy := Sensitive | PrivacySnapshot.

(** [TargetMetadata]: [{ id, hash, privacy }]; [hash] is always [null]
    and is left out. *)
Record TargetMetadata := mkMeta {
  md_id : Z;
  md_privacy : Privacy
}.

(** [metadata(node)]; [conversions] is the truthiness of
    [config.conversions]; [None] is a [null] node. *)
Definition metadata (conversions : bool) (n : option node) (s : State) : TargetMetadata * State :=
  let privacy := if conversions then Sensitive else PrivacySnapshot in
  match n with
  | None => (mkMeta 0 privacy, s)
  | Some n' =>
      match idMap s !! n' with
      | Some i => (mkMeta i privacy, s)
      | None => let (i, s') := getId_node n' s in (mkMeta i privacy, s')
      end
  end.

(** States a session can reach from module load. *)
Inductive reachable : State -> Prop :=
| reach_init : reachable init_state
| reach_getId s n : reachable s -> reachable (snd (getId n s))
| reach_add s dom n p d : reachable s -> reachable (add dom n p d s)
| reach_reset s : reachable s -> reachable (reset s)
| reach_values s v : reachable s -> reachable (set_values v s).

(** Registry invariant: identifiers lie in [1, index) and no two nodes
    share one. *)
Definition inv (s : State) : Prop :=
  (1 <= index s)%Z /\
  (forall m i, idMap s !! m = Some i -> (1 <= i < index s)%Z) /\
  (forall m m' i, idMap s !! m = Some i -> idMap s !! m' = Some i -> m = m').

End Snapshot.

(* ------------------------------------------------------------------ *)
(** ** layout/node.ts *)

Module Layout.

(** Values of [Constant] (@clarity-types/layout) that node.ts uses. *)
Module Constant.
Definition DocumentTag := "*D".
Definition TextTag := "*T".
Definition ShadowDomTag := "*S".
Definition PolyfillShadowDomTag := "*P".
Definition IFramePrefix := "iframe:".
Definition SvgPrefix := "svg:".
Definition SvgNamespace := "http://www.w3.org/2000/svg".
Definition SameOrigin := "*O".
Definition Base := "*B".
Definition HTML := "HTML".
Definition JsonLD := "application/ld+json".
Definition StyleSheet := "stylesheet".
Definition Type_ := "type".
Definition Property := "property".
Definition Name := "name".
Definition Content := "content".
Definition ogTitle := "og:title".
Definition ogType := "og:type".
Definition Generator := "generator".
Definition Src := "src".
Definition InputTag := "INPUT".
Definition Value := "value".
End Constant.

Inductive Source := Discover | ChildListAdd | ChildListRemove | Attributes | CharacterData.

Definition Source_eqb (a b : Source) : bool :=
  match a, b with
  | Discover, Discover | ChildListAdd, ChildListAdd | ChildListRemove, ChildListRemove
  | Attributes, Attributes | CharacterData, CharacterData => true
  | _, _ => false
  end.

Inductive Dimension := MetaTitle | MetaType | GeneratorDim.
Inductive Severity := Warning.
Inductive Code := CssRulesCode.

(** The [call] of [dom[call](...)]. *)
Inductive Call := CallAdd | CallUpdate.

(** The data object handed to [dom.add] / [dom.update]. *)
Record NodeData := mkData {
  d_tag : string;
  d_attributes : option (list (string * string));
  d_value : option string
}.

(** Calls into collaborator modules, in the order they are made. *)
Inductive Event :=
| DomWrite (c : Call) (n : node) (parent : option node) (data : NodeData) (src : Source)
| DomParse (root : node)
| CheckDocumentStyles (root : node)
| MutationObserve (root : node)
| InteractionObserve (root : node)
| MutationMonitor (frame : node)
| MutationDisconnect (doc : node)
| EventUnbind (target : node)
| RemoveIFrame (frame doc : node)
| SchemaLd (json_text : string)
| DimensionLog (dim : Dimension) (v : string)
| BasePatch (head : node) (base : string)
| InternalLog (code : Code) (sev : Severity) (detail : option string).

(** Normal completion or an exception, identified by its [name]. *)
Inductive Result (A : Type) := Ok (a : A) | Throw (name : string).
Arguments Ok {A} a.
Arguments Throw {A} name.

(** Computations of node.ts: the calls they make, and their outcome. *)
Definition M (A : Type) : Type := (list Event * Result A)%type.

#[export] Instance M_ret : MRet M := fun A a => ([], Ok a).
#[export] Instance M_bind : MBind M := fun A B k m =>
  match m with
  | (tr, Ok a) => let (tr', r) := k a in (app tr tr', r)
  | (tr, Throw e) => (tr, Throw e)
  end.

Definition emit (e : Event) : M unit := ([e], Ok tt).
Definition skip : M unit := mret tt.
Definition throw {A} (name : string) : M A := ([], Throw name).

(** Read-only view of the collaborators' state during one call. *)
Record Env := mkEnv {
  document : node;                          (* the top [document] *)
  page_location : Location;                 (* the global [location] *)
  electron : bool;                          (* data/metadata [electron] *)
  styleSheets : list (node * CssRules);     (* document.styleSheets: ownerNode, rules *)
  resolve_href : option string -> Location; (* a.href = ...; a.protocol/host/pathname *)
  json_parses : string -> bool;             (* JSON.parse does not throw *)
  dom_has : node -> bool;
  dom_get : node -> bool;                   (* dom.get(node) is a record *)
  dom_iframe : node -> option node;
  dom_sameorigin : node -> bool;
  dom_iframeContent : node -> option (option node * option node); (* {doc, win} *)
  event_has : node -> bool
}.

Definition IGNORE_ATTRIBUTES :=
  ["title"; "alt"; "onload"; "onfocus"; "onerror"; "data-drupal-form-submit-last"; "aria-label"].

Definition ignored (name : string) : bool := existsb (String.eqb name) IGNORE_ATTRIBUTES.

(** [getAttributes(element)] of node.ts. *)
Definition getAttributes (d : DNode) : list (string * string) :=
  let output := fold_left (fun out '(name, v) => if ignored name then out else set_attr name v out)
                  (attributes d) [] in
  if String.eqb (tagName d) Constant.InputTag && negb (has_key Constant.Value output)
     && negb (String.eqb (input_value d) "")
  then set_attr Constant.Value (input_value d) output
  else output.

(** [String.prototype.trim]: strips, at both ends, the ECMAScript
    WhiteSpace and LineTerminator code points: TAB, LF, VT, FF, CR, SP,
    U+00A0, U+1680, U+2000 to U+200A, U+2028, U+2029, U+202F, U+205F,
    U+3000 and U+FEFF.  Strings are byte strings holding UTF-8, so each
    code point is matched as its UTF-8 byte sequence; at the end of the
    string the reversed sequences are matched on the reversed bytes (a
    UTF-8 sequence is never a suffix of another one). *)
Definition js_ws : list (list ascii) :=
  map (map ascii_of_nat)
    ([[9]; [10]; [11]; [12]; [13]; [32]; [194; 160]; [225; 154; 128]] ++
     map (fun k => [226; 128; k]) (seq 128 11) ++
     [[226; 128; 168]; [226; 128; 169]; [226; 128; 175]; [226; 129; 159];
      [227; 128; 128]; [239; 187; 191]]).

Fixpoint prefixb (w l : list ascii) : bool :=
  match w, l with
  | [], _ => true
  | c :: w', c' :: l' => Ascii.eqb c c' && prefixb w' l'
  | _ :: _, [] => false
  end.

(** Drops the first sequence of [seqs] that starts [l], if any. *)
Fixpoint strip_one (seqs : list (list ascii)) (l : list ascii) : option (list ascii) :=
  match seqs with
  | [] => None
  | w :: seqs' => if prefixb w l then Some (drop (length w) l) else strip_one seqs' l
  end.

Fixpoint ltrim_fuel (seqs : list (list ascii)) (fuel : nat) (l : list ascii) : list ascii :=
  match fuel with
  | O => l
  | S fuel' =>
      match strip_one seqs l with
      | Some l' => ltrim_fuel seqs fuel' l'
      | None => l
      end
  end.

(** Every sequence is non-empty, so [length l] rounds suffice. *)
Definition ltrim (seqs : list (list ascii)) (l : list ascii) : list ascii :=
  ltrim_fuel seqs (length l) l.

Definition trim (s : string) : string :=
  let l := ltrim js_ws (list_ascii_of_string s) in
  string_of_list_ascii (rev (ltrim (map (@rev ascii) js_ws) (rev l))).

(** [.replace(/[\r\n]+/g, "")] *)
Definition strip_newlines (s : string) : string :=
  string_of_list_ascii
    (filter (fun c => negb (Nat.eqb (nat_of_ascii c) 10 || Nat.eqb (nat_of_ascii c) 13))
       (list_ascii_of_string s)).

Definition starts_with (p s : string) : bool := String.prefix p s.

(** [Object.keys(element.dataset)]: the [data-*] attributes. *)
Definition dataset (d : DNode) : list string :=
  filter (starts_with "data-") (map fst (attributes d)).

(** [element.id]: the [id] attribute, or [""]. *)
Definition element_id (d : DNode) : string := default "" (lookup_attr "id" (attributes d)).

Definition concat_css (l : list string) : string := fold_left String.append l "".

(** [getCssRules(sheet)] *)
Definition getCssRules (sheet : option CssRules) : M string :=
  cssRules ← match sheet with
             | None => mret (Some [])
             | Some (Rules l) => mret (Some l)
             | Some (Raises e) =>
                 emit (InternalLog CssRulesCode Warning (Some e)) ;;
                 if negb (String.eqb e "SecurityError") then throw e else mret None
             end;
  mret (match cssRules with Some l => concat_css l | None => "" end).

(** [getStyleValue(style)] *)
Definition getStyleValue (d : DNode) : M string :=
  let value := if String.eqb (textContent d) "" then "" else trim (textContent d) in
  if Nat.eqb (String.length value) 0 || Nat.ltb 0 (length (dataset d))
     || Nat.ltb 0 (String.length (element_id d))
  then getCssRules (sheet d)
  else mret value.

(** [observe(root)] *)
Definition observe (env : Env) (root : node) : M unit :=
  if dom_has env root || event_has env root then skip
  else emit (MutationObserve root) ;; emit (InteractionObserve root).

(** [removeObserver(root)] *)
Definition removeObserver (env : Env) (root : node) : M unit :=
  emit (EventUnbind root) ;;
  let '(doc, win) := default (None, None) (dom_iframeContent env root) in
  (match win with Some w => emit (EventUnbind w) | None => skip end) ;;
  match doc with
  | Some dc => emit (EventUnbind dc) ;; emit (MutationDisconnect dc) ;; emit (RemoveIFrame root dc)
  | None => skip
  end.

Definition write (c : Call) (n : node) (parent : option node) (data : NodeData) (src : Source) : M unit :=
  emit (DomWrite c n parent data src).

Definition loc_base (l : Location) : string :=
  protocol l ++ "//" ++ host l ++ pathname l.

Fixpoint find_sheet (el : node) (sheets : list (node * CssRules)) : option CssRules :=
  match sheets with
  | [] => None
  | (owner, r) :: rest => if Nat.eqb owner el then Some r else find_sheet el rest
  end.

(** The [switch (tag)] of the [ELEMENT_NODE] case; [call] and
    [insideFrame] as computed at the top of the function. *)
Definition element_case (env : Env) (dom : store) (n : node) (source : Source)
    (call : Call) (insideFrame : bool) : M (option node) :=
  let d := get dom n in
  let attrs := getAttributes d in
  let parent := match parentElement dom n with
                | Some p => Some p
                | None => parentNode d
                end in
  let tag := if String.eqb (namespaceURI d) Constant.SvgNamespace
             then String.append Constant.SvgPrefix (tagName d) else tagName d in
  if String.eqb tag "HTML" then
    let parent' := if insideFrame
                   then match parent with Some p => dom_iframe env p | None => parent end
                   else parent in
    let htmlPrefix := if insideFrame then Constant.IFramePrefix else "" in
    write call n parent' (mkData (String.append htmlPrefix tag) (Some attrs) None) source ;;
    mret None
  else if String.eqb tag "SCRIPT" then
    (if has_key Constant.Type_ attrs
        && (match lookup_attr Constant.Type_ attrs with
            | Some t => String.eqb t Constant.JsonLD | None => false end)
     then let txt := strip_newlines (script_text d) in
          (* try { schema.ld(JSON.parse(txt)) } catch { } *)
          if json_parses env txt then emit (SchemaLd txt) else skip
     else skip) ;;
    mret None
  else if String.eqb tag "NOSCRIPT" then
    write call n parent (mkData tag (Some []) (Some "")) source ;;
    mret None
  else if String.eqb tag "META" then
    let key := if has_key Constant.Property attrs then Some Constant.Property
               else if has_key Constant.Name attrs then Some Constant.Name
               else None in
    (match key, lookup_attr Constant.Content attrs with
     | Some k, Some content =>
         let v := default "" (lookup_attr k attrs) in
         if String.eqb v Constant.ogTitle then emit (DimensionLog MetaTitle content)
         else if String.eqb v Constant.ogType then emit (DimensionLog MetaType content)
         else if String.eqb v Constant.Generator then emit (DimensionLog GeneratorDim content)
         else skip
     | _, _ => skip
     end) ;;
    mret None
  else if String.eqb tag "HEAD" then
    let l := if insideFrame
             then default (page_location env) (location (get dom (ownerDocument d)))
             else page_location env in
    write call n parent (mkData tag (Some (set_attr Constant.Base (loc_base l) attrs)) None) source ;;
    mret None
  else if String.eqb tag "BASE" then
    (match parentElement dom n with
     | Some h => if dom_get env h
                 then emit (BasePatch h (loc_base (resolve_href env (lookup_attr "href" attrs))))
                 else skip
     | None => skip
     end) ;;
    mret None
  else if String.eqb tag "STYLE" then
    v ← getStyleValue d;
    write call n parent (mkData tag (Some attrs) (Some v)) source ;;
    mret None
  else if String.eqb tag "IFRAME" then
    let so := dom_sameorigin env n in
    (if so then emit (MutationMonitor n) else skip) ;;
    let frameAttrs := if so then set_attr Constant.SameOrigin "true" attrs else attrs in
    let child := if so
                 then match contentDocument d, contentWindow d with
                      | Some cd, Some _ =>
                          if String.eqb (readyState (get dom cd)) "loading" then None else Some cd
                      | _, _ => None
                      end
                 else None in
    (if Source_eqb source ChildListRemove then removeObserver env n else skip) ;;
    write call n parent (mkData tag (Some frameAttrs) None) source ;;
    mret child
  else if String.eqb tag "LINK" then
    if electron env
       && (match lookup_attr "rel" attrs with
           | Some r => String.eqb r Constant.StyleSheet | None => false end)
    then
      (match find_sheet n (styleSheets env) with
       | Some r => v ← getCssRules (Some r);
                   write call n parent (mkData "STYLE" (Some attrs) (Some v)) source
       | None => skip
       end) ;;
      mret None
    else
      write call n parent (mkData tag (Some attrs) None) source ;;
      mret None
  else if String.eqb tag "VIDEO" || String.eqb tag "AUDIO" || String.eqb tag "SOURCE" then
    let mediaAttrs := match lookup_attr Constant.Src attrs with
                      | Some s => if starts_with "data:" s then set_attr Constant.Src "" attrs
                                  else attrs
                      | None => attrs
                      end in
    write call n parent (mkData tag (Some mediaAttrs) None) source ;;
    mret None
  else
    write call n parent (mkData tag (Some attrs) None) source ;;
    mret (shadowRoot d).

(** The default export of node.ts: process [inputNode] for [source];
    the result is the follow-up node ([child]). *)
Definition process_node (env : Env) (dom : store) (inputNode : node) (source : Source)
    : M (option node) :=
  if Source_eqb source ChildListRemove && negb (dom_has env inputNode) then mret None
  else
  let n := if negb (Source_eqb source Discover)
              && NodeType_eqb (nodeType (get dom inputNode)) TEXT_NODE
              && (match parentElement dom inputNode with
                  | Some p => String.eqb (tagName (get dom p)) "STYLE"
                  | None => false end)
           then default inputNode (parentNode (get dom inputNode))
           else inputNode in
  let d := get dom n in
  let call := if negb (dom_has env n) then CallAdd else CallUpdate in
  let parent := parentElement dom n in
  let insideFrame := negb (Nat.eqb (ownerDocument d) (document env)) in
  match nodeType d with
  | DOCUMENT_TYPE_NODE =>
      let parent' := if insideFrame
                     then match parentNode d with Some p => dom_iframe env p | None => parent end
                     else parent in
      let docTypePrefix := if insideFrame then Constant.IFramePrefix else "" in
      let docName := if String.eqb (dt_name d) "" then Constant.HTML else dt_name d in
      let docAttributes := [("name", docName); ("publicId", dt_publicId d);
                            ("systemId", dt_systemId d)] in
      write call n parent'
        (mkData (String.append docTypePrefix Constant.DocumentTag) (Some docAttributes) None)
        source ;;
      mret None
  | DOCUMENT_NODE =>
      (if Nat.eqb n (document env) then emit (DomParse n) else skip) ;;
      emit (CheckDocumentStyles n) ;;
      observe env n ;;
      mret None
  | DOCUMENT_FRAGMENT_NODE =>
      match shadow_host d with
      | Some h =>
          emit (DomParse n) ;;
          (if native_constructor d
           then observe env n ;;
                write call n (Some h) (mkData Constant.ShadowDomTag (Some [("style", "")]) None) source
           else write call n (Some h) (mkData Constant.PolyfillShadowDomTag (Some []) None) source) ;;
          emit (CheckDocumentStyles n) ;;
          mret None
      | None => mret None
      end
  | TEXT_NODE =>
      let parent' := match parent with Some p => Some p | None => parentNode d end in
      (if (match call with CallUpdate => true | CallAdd => false end)
          || (match parent' with
              | Some p => dom_has env p
                          && negb (String.eqb (tagName (get dom p)) "STYLE")
                          && negb (String.eqb (tagName (get dom p)) "NOSCRIPT")
              | None => false
              end)
       then write call n parent' (mkData Constant.TextTag None (Some (nodeValue d))) source
       else skip) ;;
      mret None
  | ELEMENT_NODE => element_case env dom n source call insideFrame
  | COMMENT_NODE => mret None
  end.

End Layout.

(* ------------------------------------------------------------------ *)
(** ** Collaborator state touched by the node processor *)

Module Tracking.
Import Layout.

(** Modelled from the spec: layout/dom.ts (identity registry and the
    iframe tracking maps behind [dom.has], [dom.add], [dom.update],
    [dom.iframe], [dom.iframeContent] and [dom.removeIFrame]),
    core/event.ts ([event.unbind]) and layout/mutation.ts
    ([mutation.observe], [mutation.monitor], [mutation.disconnect]) are
    not in the sources.  Following the spec: identifiers are allocated
    on first use from a monotonic counter and reused on update (4.1,
    4.4); a frame maps to its content document and window and the
    document back to its frame (4.5); listeners are bound per target and
    mutation watchers per root (4.5); monitoring a same-origin frame
    binds a listener on the frame element; the teardown of a frame
    removes the frame and its content document from the identity
    registry and from the iframe maps (4.5), while the counter is not
    rewound, so a later insertion receives a fresh identifier. *)
Record T := mkT {
  ids : gmap node Z;
  next_id : Z;
  iframeContentMap : gmap node (option node * option node);
  iframeMap : gmap node node;
  bound : gset node;
  watched : gset node
}.

Definition dom_add (n : node) (t : T) : T :=
  match ids t !! n with
  | Some _ => t
  | None => mkT (<[n := next_id t]> (ids t)) (next_id t + 1) (iframeContentMap t)
              (iframeMap t) (bound t) (watched t)
  end.

Definition set_bound (b : gset node) (t : T) : T :=
  mkT (ids t) (next_id t) (iframeContentMap t) (iframeMap t) b (watched t).

Definition set_watched (w : gset node) (t : T) : T :=
  mkT (ids t) (next_id t) (iframeContentMap t) (iframeMap t) (bound t) w.

(** Effect of one collaborator call. *)
Definition apply (t : T) (e : Event) : T :=
  match e with
  | DomWrite CallAdd n _ _ _ => dom_add n t
  | DomWrite CallUpdate _ _ _ _ => t
  | MutationObserve r => set_watched (watched t ∪ {[r]}) t
  | InteractionObserve r => set_bound (bound t ∪ {[r]}) t
  | MutationMonitor f => set_bound (bound t ∪ {[f]}) t
  | MutationDisconnect dc => set_watched (watched t ∖ {[dc]}) t
  | EventUnbind x => set_bound (bound t ∖ {[x]}) t
  | RemoveIFrame f dc =>
      mkT (delete dc (delete f (ids t))) (next_id t) (delete f (iframeContentMap t))
        (delete dc (iframeMap t)) (bound t) (watched t)
  | _ => t
  end.

Definition run (t : T) (tr : list Event) : T := fold_left apply tr t.

(** The queries of the node processor, answered from [t]. *)
Definition env_of (t : T) (base : Env) : Env :=
  mkEnv (document base) (page_location base) (electron base) (styleSheets base)
    (resolve_href base) (json_parses base)
    (fun n => bool_decide (is_Some (ids t !! n)))
    (dom_get base)
    (fun dc => iframeMap t !! dc)
    (dom_sameorigin base)
    (fun f => iframeContentMap t !! f)
    (event_has base).

End Tracking.

(* ------------------------------------------------------------------ *)
(** ** Fixtures: small documents used by the examples below *)

Module Fixtures.

Definition doc_node (children : list node) (root : option node) : DNode :=
  mkDNode DOCUMENT_NODE "" "" "" None children [] 1 root None "" "" "" "" "" "" None None None
    false None None "complete".

Definition elem (tag : string) (parent : option node) (children : list node)
    (attrs : list (string * string)) : DNode :=
  mkDNode ELEMENT_NODE tag "" "" parent children attrs 1 None None "" "" "" "" "" "" None None
    None false None None "".

Definition text (v : string) (parent : option node) : DNode :=
  mkDNode TEXT_NODE "" "" v parent [] [] 1 None None "" "" "" "" "" "" None None None
    false None None "".

(** A document (1) whose only child is a DIV (2) holding the text "hello" (3). *)
Definition div_hello : store :=
  <[1 := doc_node [2] (Some 2)]> (<[2 := elem "DIV" (Some 1) [3] []]>
    (<[3 := text "hello" (Some 2)]> ∅)).

(** A page: document (1) with a HEAD (2) holding a META og:title (3), a
    JSON-LD SCRIPT whose text is not JSON (4), an IFRAME (5) with
    content document (6) and window (7), and an INPUT without a value
    (9); a text node (8) already detached from its parent. *)
Definition page : store :=
  <[1 := doc_node [2] (Some 2)]>
  (<[2 := elem "HEAD" (Some 1) [3; 4; 5; 9] []]>
  (<[3 := elem "META" (Some 2) [] [("property", "og:title"); ("content", "X")]]>
  (<[4 := mkDNode ELEMENT_NODE "SCRIPT" "" "" (Some 2) [] [("type", "application/ld+json")] 1
            None None "" "" "" "" "" "{ not json" None None None false None None ""]>
  (<[5 := mkDNode ELEMENT_NODE "IFRAME" "" "" (Some 2) [] [] 1 None None "" "" "" "" "" ""
            None None None false (Some 6) (Some 7) ""]>
  (<[6 := mkDNode DOCUMENT_NODE "" "" "" None [] [] 6 None None "" "" "" "" "" "" None None None
            false None None "complete"]>
  (<[8 := text "gone" None]>
  (<[9 := elem "INPUT" (Some 2) [] []]> ∅))))))).

(** The same page after a replacement IFRAME (10) was inserted where the
    old one (5) was removed. *)
Definition page_reinserted : store :=
  <[10 := elem "IFRAME" (Some 2) [] []]> page.

Definition loc0 : Location := mkLocation "https:" "example.com" "/".

(** Collaborator answers for [page]: nothing mirrored yet, and JSON
    parsing failing. *)
Definition env0 : Layout.Env :=
  Layout.mkEnv 1 loc0 false [] (fun _ => loc0) (fun _ => false) (fun _ => false)
    (fun _ => false) (fun _ => None) (fun _ => true) (fun _ => None) (fun _ => false).

(** Tracking state in which the HEAD (2), the IFRAME (5) and its content
    document (6) are mirrored, the frame maps to (6, 7), and listeners
    and a mutation watcher are attached to the frame content. *)
Definition tracked : Tracking.T :=
  Tracking.mkT (<[2 := 1%Z]> (<[5 := 2%Z]> (<[6 := 3%Z]> ∅))) 4
    {[5 := (Some 6, Some 7)]} {[6 := 5]} {[5; 6; 7]} {[6]}.

End Fixtures.

(* ------------------------------------------------------------------ *)
(** ** Observations on the two modules' results *)

Module SnapshotViews.
Import Snapshot.

(** A record as [traverse] may push it: a truthy tag, and not one of
    the skipped element tags. *)
Definition record_tag_ok (r : NodeValue) : Prop :=
  tag_truthy (tag (nv_data r)) = true /\
  tag (nv_data r) <> Some "SCRIPT" /\ tag (nv_data r) <> Some "STYLE" /\
  tag (nv_data r) <> Some "NOSCRIPT".

(** [r] is the record of node [m] in state [s]. *)
Definition rec_of (s : State) (m : node) (r : NodeValue) : Prop := idMap s !! m = Some (nv_id r).

(** One operation on the module state, as in [reachable]; [rtc step]
    is any later evolution of a state. *)
Inductive step : State -> State -> Prop :=
| step_getId s n : step s (snd (getId n s))
| step_add s dom n p d : step s (add dom n p d s)
| step_reset s : step s (reset s)
| step_values s v : step s (set_values v s).

End SnapshotViews.

Module LayoutViews.
Import Layout.
Local Open Scope list_scope.

(** The [call] of the default export: [dom.has(node) === false ? "add" : "update"]. *)
Definition call_of (env : Env) (x : node) : Call := if negb (dom_has env x) then CallAdd else CallUpdate.

Definition is_write (e : Event) : bool := match e with DomWrite _ _ _ _ _ => true | _ => false end.

(** Number of [dom.add] / [dom.update] calls a computation makes. *)
Definition wcount {A} (m : M A) : nat := length (filter is_write (fst m)).

(** A write made while processing [n] for [src]: it passes [src] on,
    its [call] is the one for the written node, and it writes [n]
    itself or, for a text node inside a STYLE element, that element. *)
Definition write_ok (env : Env) (dom : store) (n : node) (src : Source) (e : Event) : Prop :=
  match e with
  | DomWrite c x _ _ s' =>
      s' = src /\ c = call_of env x /\
      (x = n \/ (nodeType (get dom n) = TEXT_NODE /\ parentElement dom n = Some x /\
                 tagName (get dom x) = "STYLE" /\ src <> Discover))
  | _ => True
  end.

(** Every exception [e] a computation ends with is not a SecurityError,
    was logged as a warning as the last call, and satisfies [Q]. *)
Definition TP {A} (Q : string -> Prop) (m : M A) : Prop :=
  forall e, snd m = Throw e ->
    e <> "SecurityError" /\
    (exists tr, fst m = tr ++ [InternalLog CssRulesCode Warning (Some e)]) /\ Q e.

(** [e] is what reading the rules of element [m]'s style sheet raises:
    [m] is a (non-SVG) STYLE element whose sheet raises [e], or a
    stylesheet LINK, on Electron, whose sheet in [document.styleSheets]
    raises [e]. *)
Definition raised_at (env : Env) (dom : store) (m : node) (e : string) : Prop :=
  namespaceURI (get dom m) <> Constant.SvgNamespace /\
  ((tagName (get dom m) = "STYLE" /\ sheet (get dom m) = Some (Raises e)) \/
   (tagName (get dom m) = "LINK" /\ electron env = true /\
    lookup_attr "rel" (getAttributes (get dom m)) = Some "stylesheet" /\
    find_sheet m (styleSheets env) = Some (Raises e))).



(** The location whose base the HEAD case writes:
    [insideFrame && node.ownerDocument?.location ? node.ownerDocument.location : location]. *)
Definition head_location (env : Env) (dom : store) (n : node) : Location :=
  if negb (Nat.eqb (ownerDocument (get dom n)) (document env))
  then default (page_location env) (location (get dom (ownerDocument (get dom n))))
  else page_location env.

End LayoutViews.

Module MoreFixtures.
Import Layout Fixtures.

(** A document (1) with a STYLE (2) whose sheet raises a NetworkError
    and whose text (3) is empty, a VIDEO (4) with an inline data: source,
    an SVG circle (5) and a stylesheet LINK (6). *)
Definition media_page : store :=
  <[1 := doc_node [2; 4; 5; 6] None]>
  (<[2 := mkDNode ELEMENT_NODE "STYLE" "" "" (Some 1) [3] [] 1 None None "" "" "" "" "" ""
            (Some (Raises "NetworkError")) None None false None None ""]>
  (<[3 := text "" (Some 2)]>
  (<[4 := elem "VIDEO" (Some 1) [] [("src", "data:video/mp4;base64,AAAA"); ("width", "64")]]>
  (<[5 := mkDNode ELEMENT_NODE "circle" Constant.SvgNamespace "" (Some 1) [] [("r", "1")] 1
            None None "" "" "" "" "" "" None None None false None None ""]>
  (<[6 := elem "LINK" (Some 1) [] [("rel", "stylesheet"); ("href", "/app.css")]]> ∅))))).

(** A STYLE element whose text is a single no-break space (U+00A0,
    UTF-8 bytes C2 A0) and whose sheet holds the rule [a{}]. *)
Definition nbsp_style : DNode :=
  mkDNode ELEMENT_NODE "STYLE" "" "" None [] [] 1 None None "" "" ""
    (String (ascii_of_nat 194) (String (ascii_of_nat 160) EmptyString)) "" ""
    (Some (Rules ["a{}"])) None None false None None "".

(** An Electron page whose style sheet list holds the LINK's sheet. *)
Definition env_electron : Env :=
  mkEnv 1 loc0 true [(6, Rules ["a{}"; "b{}"])] (fun _ => loc0) (fun _ => false)
    (fun _ => false) (fun _ => false) (fun _ => None) (fun _ => false) (fun _ => None)
    (fun _ => false).

End MoreFixtures.

(* ------------------------------------------------------------------ *)
(** ** Plain objects: the key order of [[OwnPropertyKeys]] *)
Module ObjectViews.
Import Dom.

(** [key_lt a b]: both keys are array indices, [a]'s the smaller. *)
Definition key_lt (a b : string * string) : Prop :=
  match array_index (fst a), array_index (fst b) with
  | Some i, Some j => (i < j)%N
  | _, _ => False
  end.

(** [out] is the plain object obtained by assigning the entries of [src]
    (which has distinct keys) in turn: its keys are distinct, it holds
    exactly the entries of [src] whose key is not [__proto__], and it
    lists the array-index keys first, in ascending numeric order,
    followed by the other entries in the order of [src]. *)
Definition plain_object_of (src out : list (string * string)) : Prop :=
  List.NoDup (map fst out) /\
  (forall k v, In (k, v) out <-> In (k, v) src /\ k <> "__proto__") /\
  exists idx,
    out = app idx (List.filter (fun a => negb (is_index (fst a)) && negb (String.eqb (fst a) "__proto__"))
                     src) /\
    Forall (fun a => is_index (fst a) = true) idx /\
    StronglySorted key_lt idx.

End ObjectViews.


(* ================================================================== *)
(** * Properties *)

(* ------------------------------------------------------------------ *)
(** ** Plain objects built by assignments *)
Module ObjectProofs.
Import Dom ObjectViews.
Local Open Scope list_scope.

Lemma lookup_attr_app (k : string) (l1 l2 : list (string * string)) :
  lookup_attr k (l1 ++ l2) =
  match lookup_attr k l1 with Some v => Some v | None => lookup_attr k l2 end.
Proof.
  induction l1 as [|[k' v'] l1 IH]; simpl; [done|]. by destruct (String.eqb k k').
Qed.

Lemma lookup_attr_None (k : string) (l : list (string * string)) :
  lookup_attr k l = None <-> ~ In k (map fst l).
Proof.
  induction l as [|[k' v'] l IH]; simpl; [tauto|].
  destruct (String.eqb_spec k k') as [->|Hne]; [split; [discriminate|tauto]|].
  rewrite IH. split; [intros H [->|Hin]; tauto | tauto].
Qed.

Lemma lookup_attr_In (k v : string) (l : list (string * string)) :
  NoDup (map fst l) -> In (k, v) l -> lookup_attr k l = Some v.
Proof.
  induction l as [|[k' v'] l IH]; simpl; [tauto|]. intros Hnd Hin.
  apply NoDup_ListNoDup, NoDup_cons_iff in Hnd as [Hk' Hnd].
  apply NoDup_ListNoDup in Hnd.
  destruct (String.eqb_spec k k') as [->|Hne].
  - destruct Hin as [[= ->]|Hin]; [done|].
    exfalso. apply Hk'. apply in_map_iff. by exists (k', v).
  - destruct Hin as [[= -> ->]|Hin]; [done|]. by apply IH.
Qed.

Lemma array_index_spec (k : string) (i : N) :
  array_index k = Some i -> k = NilZero.string_of_uint (N.to_uint i).
Proof.
  unfold array_index. destruct (NilZero.uint_of_string k) as [u|]; [|discriminate].
  destruct (String.eqb_spec (NilZero.string_of_uint (N.to_uint (N.of_uint u))) k) as [<-|];
    simpl; [|discriminate].
  destruct (N.ltb _ _); [|discriminate]. by intros [= <-].
Qed.

Lemma array_index_inj (k1 k2 : string) (i : N) :
  array_index k1 = Some i -> array_index k2 = Some i -> k1 = k2.
Proof. intros H1 H2. by rewrite (array_index_spec _ _ H1), (array_index_spec _ _ H2). Qed.

Lemma set_attr_proto (v : string) (l : list (string * string)) :
  set_attr "__proto__" v l = l.
Proof. reflexivity. Qed.

Lemma lookup_update_attr (x k v : string) (l : list (string * string)) :
  lookup_attr x (update_attr k v l) = if String.eqb x k then Some v else lookup_attr x l.
Proof.
  induction l as [|[k'' v''] l IH]; simpl; [done|].
  destruct (String.eqb_spec k k'') as [->|Hne]; simpl.
  - by destruct (String.eqb x k'').
  - rewrite IH. destruct (String.eqb_spec x k) as [->|]; [|done].
    apply String.eqb_neq in Hne. by rewrite Hne.
Qed.

Lemma update_attr_keys (k v : string) (l : list (string * string)) :
  In k (map fst l) -> map fst (update_attr k v l) = map fst l.
Proof.
  induction l as [|[k' v'] l IH]; simpl; [done|]. intros Hk.
  destruct (String.eqb_spec k k') as [->|Hne]; simpl; [done|].
  rewrite IH; [done|]. destruct Hk; [congruence|done].
Qed.

(** An assignment to a fresh key other than [__proto__] inserts the
    entry somewhere in the list. *)
Lemma set_attr_new (k v : string) (l : list (string * string)) :
  k <> "__proto__" -> ~ In k (map fst l) ->
  set_attr k v l =
    match array_index k with Some i => insert_index i k v l | None => l ++ [(k, v)] end.
Proof.
  intros Hp Hk. unfold set_attr. apply String.eqb_neq in Hp. rewrite Hp.
  unfold has_key. apply lookup_attr_None in Hk. by rewrite Hk.
Qed.

Lemma set_attr_old (k v : string) (l : list (string * string)) :
  k <> "__proto__" -> In k (map fst l) -> set_attr k v l = update_attr k v l.
Proof.
  intros Hp Hk. unfold set_attr. apply String.eqb_neq in Hp. rewrite Hp.
  unfold has_key. destruct (lookup_attr k l) eqn:Hl; [done|].
  apply lookup_attr_None in Hl. tauto.
Qed.

Lemma insert_index_split (i : N) (k v : string) (l : list (string * string)) :
  exists l1 l2, l = l1 ++ l2 /\ insert_index i k v l = l1 ++ (k, v) :: l2.
Proof.
  induction l as [|[k' v'] l IH]; simpl.
  - by exists [], [].
  - destruct (array_index k') as [j|]; [destruct (N.ltb j i)|].
    + destruct IH as (l1 & l2 & -> & ->). by exists ((k', v') :: l1), l2.
    + by exists [], ((k', v') :: l).
    + by exists [], ((k', v') :: l).
Qed.

Lemma lookup_set_attr (x k v : string) (l : list (string * string)) :
  lookup_attr x (set_attr k v l) =
    if String.eqb k "__proto__" then lookup_attr x l
    else if String.eqb x k then Some v else lookup_attr x l.
Proof.
  destruct (String.eqb_spec k "__proto__") as [->|Hp]; [done|].
  destruct (in_dec string_dec k (map fst l)) as [Hk|Hk].
  - rewrite set_attr_old by done. apply lookup_update_attr.
  - rewrite set_attr_new by done. apply lookup_attr_None in Hk.
    destruct (array_index k) as [i|].
    + destruct (insert_index_split i k v l) as (l1 & l2 & -> & ->).
      rewrite lookup_attr_app in Hk |- *. rewrite lookup_attr_app. simpl.
      destruct (String.eqb_spec x k) as [->|]; [|done].
      by destruct (lookup_attr k l1).
    + rewrite lookup_attr_app. simpl.
      destruct (String.eqb_spec x k) as [->|]; [by rewrite Hk|].
      by destruct (lookup_attr x l).
Qed.

Lemma lookup_set_attr_plain (x k v : string) (l : list (string * string)) :
  k <> "__proto__" ->
  lookup_attr x (set_attr k v l) = if String.eqb x k then Some v else lookup_attr x l.
Proof. intros Hp. rewrite lookup_set_attr. apply String.eqb_neq in Hp. by rewrite Hp. Qed.

Lemma keys_set_attr (x k v : string) (l : list (string * string)) :
  In x (map fst (set_attr k v l)) <-> (x = k /\ k <> "__proto__") \/ In x (map fst l).
Proof.
  destruct (String.eqb_spec k "__proto__") as [->|Hp]; [rewrite set_attr_proto; tauto|].
  destruct (in_dec string_dec k (map fst l)) as [Hk|Hk].
  - rewrite set_attr_old, update_attr_keys by done. intuition congruence.
  - rewrite set_attr_new by done. destruct (array_index k) as [i|].
    + destruct (insert_index_split i k v l) as (l1 & l2 & -> & ->).
      rewrite !map_app, !in_app_iff. simpl. intuition congruence.
    + rewrite map_app, in_app_iff. simpl. intuition congruence.
Qed.

Lemma set_attr_keys (k v : string) (l : list (string * string)) :
  In k (map fst l) -> map fst (set_attr k v l) = map fst l.
Proof.
  intros Hk. destruct (String.eqb_spec k "__proto__") as [->|Hp]; [done|].
  rewrite set_attr_old by done. by apply update_attr_keys.
Qed.

Lemma nodup_set_attr (k v : string) (l : list (string * string)) :
  List.NoDup (map fst l) -> List.NoDup (map fst (set_attr k v l)).
Proof.
  intros Hnd. destruct (String.eqb_spec k "__proto__") as [->|Hp]; [done|].
  destruct (in_dec string_dec k (map fst l)) as [Hk|Hk].
  - by rewrite set_attr_keys.
  - assert (Hn : List.NoDup (k :: map fst l)) by (by constructor).
    rewrite set_attr_new by done. destruct (array_index k) as [i|].
    + destruct (insert_index_split i k v l) as (l1 & l2 & -> & ->).
      rewrite map_app in Hn |- *. simpl.
      eapply Permutation_NoDup; [apply Permutation_middle|exact Hn].
    + rewrite map_app. simpl.
      eapply Permutation_NoDup; [apply Permutation_cons_append|exact Hn].
Qed.

(** The attribute fold of both modules, with a skip predicate [p]. *)
Lemma fold_set_attr_lookup (p : string -> bool) (l acc : list (string * string)) (k : string) :
  lookup_attr k (fold_left (fun out '(name, v) => if p name then out else set_attr name v out) l acc) =
  if p k || String.eqb k "__proto__" then lookup_attr k acc
  else match lookup_attr k (rev l) with Some v => Some v | None => lookup_attr k acc end.
Proof.
  revert acc. induction l as [|[k' v'] l IH]; intros acc; simpl.
  - by destruct (p k || _).
  - rewrite IH, lookup_attr_app. cbn [lookup_attr].
    destruct (String.eqb_spec k k') as [<-|Hne].
    + destruct (p k) eqn:Hpk; cbn [orb]; [done|].
      rewrite lookup_set_attr, String.eqb_refl.
      destruct (String.eqb k "__proto__"); [done|].
      by destruct (lookup_attr k (rev l)).
    + destruct (p k') eqn:Hpk'.
      { destruct (p k || _); [done|]. by destruct (lookup_attr k (rev l)). }
      rewrite lookup_set_attr. apply String.eqb_neq in Hne. rewrite Hne.
      destruct (String.eqb k' "__proto__"); destruct (p k || _); try done;
        by destruct (lookup_attr k (rev l)).
Qed.

Lemma fold_set_attr_nodup (p : string -> bool) (l acc : list (string * string)) :
  List.NoDup (map fst acc) ->
  List.NoDup (map fst (fold_left (fun out '(name, v) => if p name then out else set_attr name v out) l acc)).
Proof.
  revert acc. induction l as [|[k' v'] l IH]; intros acc Hnd; simpl; [done|].
  apply IH. destruct (p k'); [done|]. by apply nodup_set_attr.
Qed.

(** Inserting a fresh array-index key into the sorted leading block. *)
Lemma insert_index_sorted (i : N) (k v : string) (idx rest : list (string * string)) :
  array_index k = Some i -> ~ In k (map fst idx) ->
  Forall (fun a => is_index (fst a) = true) idx -> StronglySorted key_lt idx ->
  Forall (fun a => is_index (fst a) = false) rest ->
  exists idx', insert_index i k v (idx ++ rest) = idx' ++ rest /\
    Permutation idx' ((k, v) :: idx) /\
    Forall (fun a => is_index (fst a) = true) idx' /\ StronglySorted key_lt idx'.
Proof.
  intros Hk. assert (Hik : is_index k = true) by (unfold is_index; by rewrite Hk).
  induction idx as [|[k' v'] idx IH]; intros Hnin Hall Hs Hrest; simpl.
  - exists [(k, v)]. split; [|split; [done|split; [by repeat constructor|]]].
    + destruct rest as [|[k' v'] rest]; [done|]. simpl.
      inversion Hrest as [|? ? Hr]; subst. simpl in Hr. unfold is_index in Hr.
      by destruct (array_index k').
    + repeat constructor.
  - inversion Hall as [|? ? Hk' Hall']; subst. simpl in Hk'. unfold is_index in Hk'.
    destruct (array_index k') as [j|] eqn:Hj; [|discriminate].
    inversion Hs as [|? ? Hs' Hlt]; subst.
    destruct (N.ltb_spec j i) as [Hji|Hij].
    + destruct IH as (idx' & Heq & Hperm & Hall'' & Hs'').
      { simpl in Hnin. tauto. }
      { done. }
      { done. }
      { done. }
      exists ((k', v') :: idx'). rewrite Heq. split; [done|].
      split; [rewrite Hperm; apply perm_swap|].
      split; [constructor; [simpl; unfold is_index; by rewrite Hj|done]|].
      constructor; [done|]. apply List.Forall_forall. intros y Hy.
      apply (Permutation_in _ Hperm) in Hy. destruct Hy as [<-|Hy].
      * unfold key_lt. simpl. rewrite Hj, Hk. lia.
      * exact (proj1 (List.Forall_forall _ _) Hlt y Hy).
    + exists ((k, v) :: (k', v') :: idx). split; [done|]. split; [done|].
      split; [constructor; [done|constructor; [simpl; unfold is_index; by rewrite Hj|done]]|].
      assert (Hlt' : (i < j)%N).
      { destruct (N.eq_dec i j) as [<-|]; [|lia].
        exfalso. apply Hnin. left. exact (array_index_inj _ _ _ Hj Hk). }
      constructor; [exact Hs|]. constructor.
      * unfold key_lt. simpl. rewrite Hj, Hk. exact Hlt'.
      * apply List.Forall_forall. intros [ky vy] Hy.
        pose proof (proj1 (List.Forall_forall _ _) Hlt (ky, vy) Hy) as H.
        unfold key_lt in H |- *. simpl in H |- *. rewrite Hj in H. rewrite Hk.
        destruct (array_index ky); [lia|done].
Qed.

Lemma plain_object_keys (src out : list (string * string)) (k : string) :
  plain_object_of src out -> k <> "__proto__" ->
  (In k (map fst out) <-> In k (map fst src)).
Proof.
  intros (_ & Hin & _) Hp. rewrite !in_map_iff.
  split; intros ([k' v] & Hkk & H); simpl in Hkk; subst k'; exists (k, v);
    (split; [done|]); [by apply Hin in H as [H _] | by apply Hin].
Qed.

Lemma plain_object_nil : plain_object_of [] [].
Proof.
  split; [constructor|]. split; [simpl; tauto|].
  exists []. repeat constructor.
Qed.

(** One assignment [obj[k] = v] of a key not assigned before. *)
Lemma plain_object_set (src out : list (string * string)) (k v : string) :
  plain_object_of src out -> ~ In k (map fst src) ->
  plain_object_of (src ++ [(k, v)]) (set_attr k v out).
Proof.
  intros Hpo Hk. pose proof Hpo as (Hnd & Hin & idx & Hout & Hall & Hs).
  set (P := fun a : string * string =>
              negb (is_index (fst a)) && negb (String.eqb (fst a) "__proto__")) in *.
  destruct (String.eqb_spec k "__proto__") as [->|Hp].
  - rewrite set_attr_proto. split; [done|]. split.
    + intros k' v'. rewrite Hin, in_app_iff. simpl. intuition congruence.
    + exists idx. rewrite List.filter_app. change (List.filter P [("__proto__", v)]) with (@nil (string * string)).
      by rewrite app_nil_r.
  - assert (Hko : ~ In k (map fst out)) by (by rewrite (plain_object_keys src out k Hpo Hp)).
    rewrite set_attr_new by done.
    assert (Hrest : Forall (fun a => is_index (fst a) = false) (List.filter P src)).
    { apply List.Forall_forall. intros a Ha. apply filter_In in Ha as [_ Ha].
      unfold P in Ha. by destruct (is_index (fst a)). }
    destruct (array_index k) as [i|] eqn:Hi.
    + assert (Hki : ~ In k (map fst idx)).
      { rewrite Hout, map_app, in_app_iff in Hko. tauto. }
      rewrite Hout in Hnd, Hin |- *.
      destruct (insert_index_sorted i k v idx (List.filter P src) Hi Hki Hall Hs Hrest)
        as (idx' & -> & Hperm & Hall' & Hs').
      assert (Hp' : Permutation ((k, v) :: idx ++ List.filter P src) (idx' ++ List.filter P src)).
      { change ((k, v) :: idx ++ List.filter P src) with (((k, v) :: idx) ++ List.filter P src).
        apply Permutation_app_tail. by symmetry. }
      split; [|split].
      * eapply Permutation_NoDup; [apply Permutation_map, Hp'|]. simpl.
        constructor; [|done]. by rewrite <- Hout.
      * intros k' v'. split.
        { intros H. apply (Permutation_in _ (Permutation_sym Hp')) in H.
          rewrite in_app_iff. destruct H as [[= <- <-]|H]; [simpl; tauto|].
          apply Hin in H. tauto. }
        { intros [H Hne]. apply (Permutation_in _ Hp'). rewrite in_app_iff in H.
          destruct H as [H|[[= <- <-]|[]]]; [right; by apply Hin|by left]. }
      * exists idx'. rewrite List.filter_app. split; [|done].
        assert (HP : List.filter P [(k, v)] = []).
        { simpl. unfold P. simpl. unfold is_index. by rewrite Hi. }
        unfold P in HP. by rewrite HP, app_nil_r.
    + split; [|split].
      * rewrite map_app. simpl.
        eapply Permutation_NoDup; [apply Permutation_cons_append|]. by constructor.
      * intros k' v'. rewrite !in_app_iff, Hin. simpl. intuition congruence.
      * exists idx. rewrite List.filter_app, Hout, <- app_assoc. split; [|done].
        assert (HP : List.filter P [(k, v)] = [(k, v)]).
        { simpl. unfold P. simpl. unfold is_index. rewrite Hi.
          apply String.eqb_neq in Hp. by rewrite Hp. }
        unfold P in HP. by rewrite HP.
Qed.

(** The attribute fold of both modules builds the plain object of the
    attributes it does not skip, when their names are distinct. *)
Lemma fold_plain_object (p : string -> bool) (l src acc : list (string * string)) :
  List.NoDup (map fst src ++ map fst l) -> plain_object_of src acc ->
  plain_object_of (src ++ List.filter (fun a => negb (p (fst a))) l)
    (fold_left (fun out '(name, v) => if p name then out else set_attr name v out) l acc).
Proof.
  revert src acc. induction l as [|[k v] l IH]; intros src acc Hnd Hpo; simpl.
  - by rewrite app_nil_r.
  - destruct (p k) eqn:Hpk; simpl.
    + apply IH; [|done]. by apply List.NoDup_remove_1 in Hnd.
    + replace (src ++ (k, v) :: List.filter (fun a => negb (p (fst a))) l)
        with ((src ++ [(k, v)]) ++ List.filter (fun a => negb (p (fst a))) l)
        by (by rewrite <- app_assoc).
      apply IH.
      * rewrite map_app, <- app_assoc. exact Hnd.
      * apply plain_object_set; [done|]. apply List.NoDup_remove_2 in Hnd.
        rewrite in_app_iff in Hnd. tauto.
Qed.

End ObjectProofs.

Module SnapshotProofs.
Import Snapshot Fixtures.
Local Open Scope list_scope.

Lemma getId_node_keeps (s : State) (n m : node) (i : Z) :
  idMap s !! m = Some i -> idMap (snd (getId_node n s)) !! m = Some i.
Proof.
  unfold getId_node. destruct (idMap s !! n) eqn:E; simpl; [done|].
  intros Hm. rewrite lookup_insert_ne; [done|]. intros ->. congruence.
Qed.

Lemma getId_node_inv (s : State) (n : node) : inv s -> inv (snd (getId_node n s)).
Proof.
  intros (H1 & H2 & H3). unfold getId_node, inv.
  destruct (idMap s !! n) eqn:E; cbn [snd index idMap]; [by split; [|split]|].
  split; [lia|]. split.
  - intros m i. rewrite lookup_insert. case_decide; [intros [= <-]; lia|].
    intros Hm. specialize (H2 _ _ Hm). lia.
  - intros m m' i. rewrite !lookup_insert.
    case_decide as Hnm; case_decide as Hnm'; subst; try done.
    + intros [= <-] Hm'. specialize (H2 _ _ Hm'). lia.
    + intros Hm [= <-]. specialize (H2 _ _ Hm). lia.
    + apply H3.
Qed.

Lemma add_inv (dom : store) (n : node) (p : option node) (d : NodeInfo) (s : State) :
  inv s -> inv (add dom n p d s).
Proof.
  intros Hs. unfold add. destruct (tag_truthy (tag d)); [|done].
  pose proof (getId_node_inv s n Hs) as Hi.
  destruct (getId_node n s) as [id s1]. simpl in *.
  destruct Hi as (? & ? & ?). split; [|split]; simpl; auto.
Qed.

Lemma add_keeps (dom : store) (n : node) (p : option node) (d : NodeInfo) (s : State) m i :
  idMap s !! m = Some i -> idMap (add dom n p d s) !! m = Some i.
Proof.
  intros Hm. unfold add. destruct (tag_truthy (tag d)); [|done].
  pose proof (getId_node_keeps s n m i Hm) as Hk.
  destruct (getId_node n s) as [id s1]. simpl in *. done.
Qed.

Lemma reachable_inv (s : State) : reachable s -> inv s.
Proof.
  induction 1.
  - split; [simpl; lia|]. split; intros *; simpl; rewrite lookup_empty; done.
  - destruct n as [n|]; simpl; [|done].
    pose proof (getId_node_inv s n IHreachable).
    destruct (getId_node n s); done.
  - by apply add_inv.
  - destruct IHreachable as (? & ? & ?). split; [done|].
    split; intros *; simpl; rewrite lookup_empty; done.
  - destruct IHreachable as (? & ? & ?). split; [done|]. split; done.
Qed.

(** C1.  [getId] allocates the current counter value to a node seen for
    the first time and advances the counter by one; a node already in
    the registry gets its identifier back with nothing changed; the
    identifier handed out never belongs to another node, and entries
    already in the registry are kept.  From module load the first
    identifier is 1. *)
Theorem getId_idempotent_monotonic (s : State) (n : node) :
  reachable s ->
  (idMap s !! n = None ->
     getId (Some n) s =
       (Some (index s), mkState (values s) (index s + 1)%Z (<[n := index s]> (idMap s)))) /\
  (forall i, idMap s !! n = Some i -> getId (Some n) s = (Some i, s)) /\
  (forall m i, m <> n -> idMap s !! m = Some i -> fst (getId (Some n) s) <> Some i) /\
  (forall m i, idMap s !! m = Some i -> idMap (snd (getId (Some n) s)) !! m = Some i) /\
  fst (getId (Some n) init_state) = Some 1%Z.
Proof.
  intros Hr. pose proof (reachable_inv s Hr) as (H1 & H2 & H3).
  split; [|split; [|split; [|split]]].
  - intros E. simpl. unfold getId_node. by rewrite E.
  - intros i E. simpl. unfold getId_node. by rewrite E.
  - intros m i Hmn Hm. simpl. unfold getId_node.
    destruct (idMap s !! n) as [j|] eqn:E; simpl; intros [= Heq].
    + subst j. apply Hmn. by apply (H3 m n i).
    + specialize (H2 _ _ Hm). lia.
  - intros m i Hm. simpl. pose proof (getId_node_keeps s n m i Hm).
    destruct (getId_node n s). done.
  - reflexivity.
Qed.

Lemma getId_idempotent_monotonic_witness :
  reachable init_state /\ fst (getId (Some 7) init_state) = Some 1%Z.
Proof.
  split; [constructor|].
  exact (proj2 (proj2 (proj2 (proj2 (getId_idempotent_monotonic init_state 7 reach_init))))).
Defined.

(** Breadth-first order of the traversal loop. *)
Lemma visit_nil (dom : store) (f : nat) : visit dom f [] = [].
Proof. by destruct f. Qed.

Lemma visit_app (dom : store) (q rest : list node) (f : nat) :
  visit dom (length q + f) (q ++ rest) =
  q ++ visit dom f (rest ++ concat (map (children dom) q)).
Proof.
  revert rest. induction q as [|x q IH]; intros rest; simpl.
  - by rewrite app_nil_r.
  - f_equal. rewrite <- app_assoc, IH. by rewrite <- app_assoc.
Qed.

Lemma visit_levels (dom : store) (k : nat) (fr : list node) (f : nat) :
  visit dom (length (levels dom k fr) + f) fr =
  levels dom k fr ++ visit dom f (frontier_after dom k fr).
Proof.
  revert fr f. induction k as [|k IH]; intros fr f; simpl; [done|].
  rewrite length_app, <- Nat.add_assoc.
  pose proof (visit_app dom fr [] (length (levels dom k (concat (map (children dom) fr))) + f))
    as Hv.
  rewrite app_nil_r in Hv. rewrite Hv. simpl. rewrite IH. by rewrite app_assoc.
Qed.

Lemma traverse_loop_fold (dom : store) (f : nat) (q : list node) (s : State) :
  traverse_loop dom f q s = fold_left (process dom) (visit dom f q) s.
Proof.
  revert q s. induction f as [|f IH]; intros q s; [done|].
  destruct q as [|x q]; simpl; [done|]. apply IH.
Qed.

Lemma fold_process_keeps (dom : store) (l : list node) (s : State) m i :
  idMap s !! m = Some i -> idMap (fold_left (process dom) l s) !! m = Some i.
Proof.
  revert s. induction l as [|x l IH]; intros s Hm; simpl; [done|].
  apply IH. unfold process. by apply add_keeps.
Qed.

Lemma snapshot_levels (dom : store) (document : node) (s : State) (k fuel : nat) :
  frontier_after dom k [document] = [] ->
  length (levels dom k [document]) <= fuel ->
  snapshot dom fuel document s =
    fold_left (process dom) (levels dom k [document]) (set_values [] s).
Proof.
  intros Hfr Hfuel. unfold snapshot, traverse. rewrite traverse_loop_fold.
  replace fuel with (length (levels dom k [document]) + (fuel - length (levels dom k [document])))
    by lia.
  rewrite visit_levels, Hfr, visit_nil, app_nil_r. done.
Qed.

(** C2 (amended).  Once the level order is exhausted, a snapshot is the
    [add] step folded over the nodes in breadth-first (level) order from
    the document, starting from the state with [values] emptied; the
    registry is not reset, so every identifier assigned before is still
    there afterwards. *)
Theorem snapshot_bfs_keeps_registry (dom : store) (document : node) (s : State)
    (k fuel : nat) :
  frontier_after dom k [document] = [] ->
  length (levels dom k [document]) <= fuel ->
  snapshot dom fuel document s =
    fold_left (process dom) (levels dom k [document]) (set_values [] s) /\
  (forall m i, idMap s !! m = Some i -> idMap (snapshot dom fuel document s) !! m = Some i).
Proof.
  intros Hfr Hfuel.
  pose proof (snapshot_levels dom document s k fuel Hfr Hfuel) as Hs.
  split; [done|]. intros m i Hm. rewrite Hs. by apply fold_process_keeps.
Qed.

Lemma snapshot_bfs_keeps_registry_witness :
  frontier_after div_hello 3 [1] = [] /\ length (levels div_hello 3 [1]) <= 3 /\
  snapshot div_hello 3 1 init_state =
    fold_left (process div_hello) (levels div_hello 3 [1]) (set_values [] init_state).
Proof.
  split; [vm_compute; reflexivity|]. split; [vm_compute; lia|].
  apply (snapshot_bfs_keeps_registry div_hello 1 init_state 3 3);
    [vm_compute; reflexivity | vm_compute; lia].
Defined.

(** C2 counterexample: after [start] the page root holds identifier 1;
    a snapshot keeps it, whereas resetting the registry first would
    hand the DIV identifier 2, so a snapshot does not run from an empty
    registry. *)
Lemma snapshot_no_reset_counterexample :
  let s0 := start div_hello 1 init_state in
  values (snapshot div_hello 3 1 s0) <> values (snapshot div_hello 3 1 (reset s0)).
Proof. vm_compute. congruence. Qed.

(** C3 (amended).  For the document whose only child is a DIV holding
    the text "hello", a snapshot run from a reset registry yields exactly
    two records: the DIV, whose parent identifier is null because the
    document node itself gets neither a record nor an identifier, and
    the text node, with the DIV's identifier as parent and value
    "hello".  Running the traversal a second time right after the first
    assigns the same identifiers. *)
Theorem div_hello_snapshot (s : State) (fuel : nat) :
  reachable s -> 3 <= fuel ->
  let s1 := snapshot div_hello fuel 1 (reset s) in
  values s1 =
    [mkValue (index s) None None (mkInfo (Some "DIV") (Some []) None);
     mkValue (index s + 1)%Z (Some (index s)) None (mkInfo (Some TextTag) None (Some "hello"))] /\
  idMap s1 !! 1 = None /\
  values (snapshot div_hello fuel 1 s1) = values s1.
Proof.
  intros Hr Hf. apply reachable_inv in Hr as (H1 & _).
  destruct s as [v i m]. simpl in H1. destruct i as [|p|p]; try lia.
  assert (Hfr : frontier_after div_hello 3 [1] = []) by (vm_compute; reflexivity).
  assert (Hlv : levels div_hello 3 [1] = [1; 2; 3]) by (vm_compute; reflexivity).
  cbv zeta. rewrite !(snapshot_levels div_hello 1 _ 3 fuel Hfr) by (vm_compute; lia).
  vm_compute. repeat split; reflexivity.
Qed.

Lemma div_hello_snapshot_witness :
  reachable init_state /\ 3 <= 3 /\
  values (snapshot div_hello 3 1 (reset init_state)) =
    [mkValue 1 None None (mkInfo (Some "DIV") (Some []) None);
     mkValue 2 (Some 1%Z) None (mkInfo (Some TextTag) None (Some "hello"))].
Proof.
  split; [constructor|]. split; [lia|].
  exact (proj1 (div_hello_snapshot init_state 3 reach_init (le_n 3))).
Defined.

(** C3 counterexample: the DIV record's parent is null, and the root
    document has no identifier at all. *)
Lemma div_hello_parent_counterexample :
  let s1 := snapshot div_hello 3 1 init_state in
  idMap s1 !! 1 = None /\ map nv_parent (values s1) = [None; Some 1%Z].
Proof. vm_compute. split; reflexivity. Qed.




End SnapshotProofs.

Module LayoutProofs.
Import Layout Fixtures.
Local Open Scope list_scope.

Lemma bind_Forall {A B} (P : Event -> Prop) (m : M A) (k : A -> M B) :
  Forall P (fst m) -> (forall a, Forall P (fst (k a))) -> Forall P (fst (m ≫= k)).
Proof.
  intros Hm Hk. unfold mbind, M_bind. destruct m as [tr [a|e]]; simpl in *; [|done].
  specialize (Hk a). destruct (k a) as [tr' r]. simpl in *. by apply Forall_app.
Qed.




(** C6.  Reading a rule list that raises a cross-origin [SecurityError]
    logs a warning and yields empty content; any other error is logged
    and re-thrown; a SCRIPT element whose JSON-LD text does not parse
    makes no collaborator call and completes normally. *)
Theorem cssRules_errors_and_jsonld :
  getCssRules (Some (Raises "SecurityError")) =
    ([InternalLog CssRulesCode Warning (Some "SecurityError")], Ok "") /\
  (forall e, e <> "SecurityError" ->
     getCssRules (Some (Raises e)) = ([InternalLog CssRulesCode Warning (Some e)], Throw e)) /\
  (forall env dom n src,
     nodeType (get dom n) = ELEMENT_NODE -> tagName (get dom n) = "SCRIPT" ->
     namespaceURI (get dom n) <> Constant.SvgNamespace ->
     json_parses env (strip_newlines (script_text (get dom n))) = false ->
     process_node env dom n src = ([], Ok None)).
Proof.
  split; [reflexivity|]. split.
  - intros e He. apply String.eqb_neq in He.
    unfold getCssRules. cbn. rewrite He. reflexivity.
  - intros env dom n src Ht Htag Hns Hjson.
    apply String.eqb_neq in Hns.
    unfold process_node. destruct (Source_eqb src ChildListRemove && negb (dom_has env n));
      [reflexivity|].
    rewrite Ht. rewrite andb_false_r, andb_false_l. cbv zeta.
    rewrite Ht. unfold element_case. cbv zeta. rewrite Hns, Htag. simpl.
    rewrite Hjson. by destruct (_ && _).
Qed.

Lemma cssRules_errors_and_jsonld_witness :
  "TypeError" <> "SecurityError" /\
  getCssRules (Some (Raises "TypeError")) =
    ([InternalLog CssRulesCode Warning (Some "TypeError")], Throw "TypeError") /\
  process_node env0 page 4 Discover = ([], Ok None).
Proof.
  assert (Hne : "TypeError" <> "SecurityError") by discriminate.
  split; [exact Hne|]. split.
  - exact (proj1 (proj2 cssRules_errors_and_jsonld) "TypeError" Hne).
  - apply (proj2 (proj2 cssRules_errors_and_jsonld)); vm_compute; try reflexivity; discriminate.
Defined.





(** [trim] removes the ECMAScript white space beyond ASCII: a STYLE
    whose text is a lone no-break space has empty trimmed text and
    falls back to its rules. *)
Lemma style_value_nbsp :
  trim (textContent MoreFixtures.nbsp_style) = "" /\
  getStyleValue MoreFixtures.nbsp_style = mret "a{}".
Proof. split; vm_compute; reflexivity. Qed.

(** The entries that node.ts's extraction assigns, in order: the
    attributes off the deny-list, then the live [value] of an INPUT. *)
Lemma kept_keys (d : DNode) (k : string) :
  ignored k = false ->
  (In k (map fst (List.filter (fun a => negb (ignored (fst a))) (attributes d)))
   <-> In k (map fst (attributes d))).
Proof.
  intros Hk. rewrite !in_map_iff.
  split; intros ([k' v] & Hkk & H); simpl in Hkk; subst k'; exists (k, v); (split; [done|]).
  - by apply filter_In in H as [H _].
  - apply filter_In. simpl. by rewrite Hk.
Qed.

Lemma getAttributes_object (d : DNode) :
  List.NoDup (map fst (attributes d)) ->
  let kept := List.filter (fun a => negb (ignored (fst a))) (attributes d) in
  ObjectViews.plain_object_of
    (if String.eqb (tagName d) "INPUT" && negb (has_key "value" (attributes d))
        && negb (String.eqb (input_value d) "")
     then kept ++ [("value", input_value d)] else kept)
    (getAttributes d).
Proof.
  intros Hnd. cbv zeta. unfold getAttributes, Constant.InputTag, Constant.Value. cbv zeta.
  pose proof (ObjectProofs.fold_plain_object ignored (attributes d) [] [] Hnd
                ObjectProofs.plain_object_nil) as Hpo.
  rewrite app_nil_l in Hpo.
  set (out := fold_left (fun out '(name, v) => if ignored name then out else set_attr name v out)
                (attributes d) []) in *.
  set (kept := List.filter (fun a => negb (ignored (fst a))) (attributes d)) in *.
  assert (Hv : In "value" (map fst out) <-> In "value" (map fst (attributes d))).
  { rewrite (ObjectProofs.plain_object_keys kept out "value" Hpo) by discriminate.
    by apply kept_keys. }
  assert (Hh : has_key "value" out = has_key "value" (attributes d)).
  { unfold has_key.
    destruct (lookup_attr "value" out) eqn:Ho, (lookup_attr "value" (attributes d)) eqn:Ha;
      try done; exfalso.
    - apply ObjectProofs.lookup_attr_None in Ha. apply Ha, Hv.
      destruct (in_dec string_dec "value" (map fst out)) as [|Hn]; [done|].
      apply ObjectProofs.lookup_attr_None in Hn. congruence.
    - apply ObjectProofs.lookup_attr_None in Ho. apply Ho, Hv.
      destruct (in_dec string_dec "value" (map fst (attributes d))) as [|Hn]; [done|].
      apply ObjectProofs.lookup_attr_None in Hn. congruence. }
  rewrite Hh.
  destruct (String.eqb (tagName d) "INPUT"); cbn [andb]; [|done].
  destruct (has_key "value" (attributes d)) eqn:Hha; cbn [andb negb]; [done|].
  destruct (String.eqb (input_value d) ""); cbn [andb negb]; [done|].
  apply ObjectProofs.plain_object_set; [done|].
  unfold kept. rewrite (kept_keys d "value") by reflexivity. intros Hin.
  unfold has_key in Hha. destruct (lookup_attr "value" (attributes d)) eqn:Ha; [done|].
  by apply ObjectProofs.lookup_attr_None in Ha.
Qed.

(** An attribute off the deny-list is read back from the extracted
    object with its value. *)
Lemma getAttributes_In (d : DNode) (k v : string) :
  List.NoDup (map fst (attributes d)) -> In (k, v) (attributes d) ->
  ignored k = false -> k <> "__proto__" ->
  lookup_attr k (getAttributes d) = Some v.
Proof.
  intros Hnd Hin Hk Hp.
  destruct (getAttributes_object d Hnd) as (Hnd' & Hpair & _).
  apply ObjectProofs.lookup_attr_In; [by apply NoDup_ListNoDup|].
  apply Hpair. split; [|done].
  assert (Hkept : In (k, v) (List.filter (fun a => negb (ignored (fst a))) (attributes d))).
  { apply filter_In. simpl. by rewrite Hk. }
  destruct (_ && _); [apply in_app_iff; by left|done].
Qed.





(** C9 (amended).  For a notification other than a removal, a META
    element with [property="og:title"] and [content="X"] gives exactly
    one collaborator call, a dimension log of "X", and no mirrored
    node; for a removal notification of such a META that is not
    mirrored, the processor returns at once and makes no call. *)
Theorem meta_og_title (env : Env) (dom : store) (n : node) (src : Source) (X : string) :
  nodeType (get dom n) = ELEMENT_NODE -> tagName (get dom n) = "META" ->
  namespaceURI (get dom n) <> Constant.SvgNamespace ->
  NoDup (map fst (attributes (get dom n))) ->
  In ("property", "og:title") (attributes (get dom n)) ->
  In ("content", X) (attributes (get dom n)) ->
  (src <> ChildListRemove -> process_node env dom n src = ([DimensionLog MetaTitle X], Ok None)) /\
  (dom_has env n = false -> process_node env dom n ChildListRemove = ([], Ok None)).
Proof.
  intros Ht Htag Hns Hnd Hp Hc. apply NoDup_ListNoDup in Hnd. split.
  - intros Hsrc. apply String.eqb_neq in Hns.
    assert (Hs : Source_eqb src ChildListRemove = false) by (destruct src; done).
    unfold process_node. rewrite Hs. cbn [andb]. cbv zeta. rewrite Ht. cbn [NodeType_eqb andb].
    rewrite !andb_false_r. cbn [andb]. rewrite Ht.
    unfold element_case. cbv zeta. rewrite Hns, Htag.
    assert (Hk1 : lookup_attr "property" (getAttributes (get dom n)) = Some "og:title")
      by (apply getAttributes_In; done).
    assert (Hk2 : lookup_attr "content" (getAttributes (get dom n)) = Some X)
      by (apply getAttributes_In; done).
    unfold has_key, Constant.Property, Constant.Content.
    rewrite Hk1, Hk2. cbn -[getAttributes lookup_attr]. rewrite Hk1. reflexivity.
  - intros Hh. unfold process_node. by rewrite Hh.
Qed.

Lemma meta_og_title_witness :
  process_node env0 page 3 Discover = ([DimensionLog MetaTitle "X"], Ok None) /\
  process_node env0 page 3 ChildListRemove = ([], Ok None).
Proof.
  destruct (meta_og_title env0 page 3 Discover "X" eq_refl eq_refl
              ltac:(vm_compute; discriminate)
              ltac:(refine (bool_decide_unpack _ _); vm_compute; exact I)
              ltac:(vm_compute; tauto) ltac:(vm_compute; tauto)) as [H1 H2].
  split; [apply H1; discriminate | apply H2; reflexivity].
Defined.

(** C9 counterexample: on a removal notification the META, never
    mirrored, hits the early return and no dimension is logged. *)
Lemma meta_removal_counterexample :
  process_node env0 page 3 ChildListRemove = ([], Ok None).
Proof. reflexivity. Qed.

(** Node writes issued while processing [m] are about [m] itself. *)
Definition writes_on (m : node) (e : Event) : Prop :=
  match e with DomWrite _ x _ _ _ => x = m | _ => True end.

Lemma ret_Forall {A} (P : Event -> Prop) (x : A) : Forall P (fst (mret x : M A)).
Proof. constructor. Qed.

Lemma emit_Forall (P : Event -> Prop) (e : Event) : P e -> Forall P (fst (emit e)).
Proof. intros. by constructor. Qed.

Lemma throw_Forall {A} (P : Event -> Prop) (e : string) : Forall P (fst (throw e : M A)).
Proof. constructor. Qed.

Ltac forall_step :=
  first [ apply bind_Forall; [|intros ?]
        | apply ret_Forall
        | apply throw_Forall
        | apply emit_Forall; simpl; done
        | progress unfold write, skip, observe, removeObserver, getStyleValue, getCssRules
        | case_match ].

Lemma element_case_writes (env : Env) (dom : store) (m : node) (src : Source)
    (call : Call) (insideFrame : bool) :
  Forall (writes_on m) (fst (element_case env dom m src call insideFrame)).
Proof. unfold element_case. cbv zeta. repeat forall_step. Qed.

Lemma parentElement_Some (dom : store) (n p : node) :
  parentElement dom n = Some p ->
  parentNode (get dom n) = Some p /\ nodeType (get dom p) = ELEMENT_NODE.
Proof.
  unfold parentElement. destruct (parentNode (get dom n)) as [q|]; [|discriminate].
  destruct (nodeType (get dom q)) eqn:Hq; simpl; intros [= <-]; auto.
Qed.

Lemma parent_choice (dom : store) (n : node) :
  match parentElement dom n with Some p => Some p | None => parentNode (get dom n) end =
  parentNode (get dom n).
Proof.
  destruct (parentElement dom n) as [p|] eqn:Hp; [|done].
  symmetry. apply (parentElement_Some _ _ _ Hp).
Qed.

Lemma text_write_parent (env : Env) (dom : store) (n : node) (src : Source)
    (p : option node) (data : NodeData) (s' : Source) :
  nodeType (get dom n) = TEXT_NODE ->
  In (DomWrite CallAdd n p data s') (fst (process_node env dom n src)) ->
  exists q, p = Some q /\ parentNode (get dom n) = Some q /\ dom_has env q = true /\
    tagName (get dom q) <> "STYLE" /\ tagName (get dom q) <> "NOSCRIPT".
Proof.
  intros Ht Hin. unfold process_node in Hin.
  destruct (Source_eqb src ChildListRemove && negb (dom_has env n)); [simpl in Hin; done|].
  cbv zeta in Hin.
  destruct (negb (Source_eqb src Discover) && NodeType_eqb (nodeType (get dom n)) TEXT_NODE &&
            match parentElement dom n with
            | Some p => String.eqb (tagName (get dom p)) "STYLE" | None => false end) eqn:Hb.
  - destruct (parentElement dom n) as [q|] eqn:Hpe; [|rewrite andb_false_r in Hb; discriminate].
    destruct (parentElement_Some _ _ _ Hpe) as [Hpn Hq]. rewrite Hpn in Hin. simpl in Hin.
    rewrite Hq in Hin.
    pose proof (element_case_writes env dom q src
      (if negb (dom_has env q) then CallAdd else CallUpdate)
      (negb (ownerDocument (get dom q) =? document env)%nat)) as HF.
    rewrite List.Forall_forall in HF. apply HF in Hin. simpl in Hin. subst q. congruence.
  - rewrite Ht, parent_choice in Hin.
    destruct (dom_has env n) eqn:Hh; simpl in Hin.
    + destruct Hin as [Hin|[]]; discriminate.
    + destruct (parentNode (get dom n)) as [q|] eqn:Hpn; simpl in Hin; [|done].
      destruct (dom_has env q) eqn:Hq; simpl in Hin; [|done].
      destruct (String.eqb_spec (tagName (get dom q)) "STYLE"); simpl in Hin; [done|].
      destruct (String.eqb_spec (tagName (get dom q)) "NOSCRIPT"); simpl in Hin; [done|].
      destruct Hin as [[= <-]|[]]. exists q. auto.
Qed.


(** C4.  For a text node [n] processed by the node processor: a first
    mirroring write for [n] (a [dom.add] call) names as parent the
    node's parent, which is already mirrored and is neither STYLE nor
    NOSCRIPT; a removal notification for a text node that was never
    mirrored returns [null] with no collaborator call and no exception;
    and a removal of mirrored text whose parent link is severed is
    still written, as an update with a null parent. *)
Theorem text_node_processing (env : Env) (dom : store) (n : node) (src : Source) :
  nodeType (get dom n) = TEXT_NODE ->
  (forall p data s', In (DomWrite CallAdd n p data s') (fst (process_node env dom n src)) ->
     exists q, p = Some q /\ parentNode (get dom n) = Some q /\ dom_has env q = true /\
       tagName (get dom q) <> "STYLE" /\ tagName (get dom q) <> "NOSCRIPT") /\
  (dom_has env n = false -> process_node env dom n ChildListRemove = ([], Ok None)) /\
  (dom_has env n = true -> parentNode (get dom n) = None ->
     process_node env dom n ChildListRemove =
       ([DomWrite CallUpdate n None
           (mkData Constant.TextTag None (Some (nodeValue (get dom n)))) ChildListRemove],
        Ok None)).
Proof.
  intros Ht. split; [|split].
  - intros p data s'. by apply text_write_parent.
  - intros Hh. unfold process_node. by rewrite Hh.
  - intros Hh Hpn. unfold process_node. rewrite Hh. cbn [Source_eqb andb negb].
    assert (Hpe : parentElement dom n = None) by (unfold parentElement; by rewrite Hpn).
    rewrite Hpe, !andb_false_r. cbv zeta. rewrite Ht, Hh, parent_choice, Hpn.
    reflexivity.
Qed.

Lemma text_node_processing_witness :
  nodeType (get page 8) = TEXT_NODE /\
  process_node env0 page 8 ChildListRemove = ([], Ok None) /\
  process_node (mkEnv 1 loc0 false [] (fun _ => loc0) (fun _ => false) (fun k => Nat.eqb k 8)
                  (fun _ => false) (fun _ => None) (fun _ => true) (fun _ => None) (fun _ => false))
    page 8 ChildListRemove =
    ([DomWrite CallUpdate 8 None (mkData Constant.TextTag None (Some "gone")) ChildListRemove],
     Ok None).
Proof.
  assert (Ht : nodeType (get page 8) = TEXT_NODE) by reflexivity.
  split; [exact Ht|]. split.
  - apply (proj1 (proj2 (text_node_processing env0 page 8 ChildListRemove Ht))).
    reflexivity.
  - apply (proj2 (proj2 (text_node_processing _ page 8 ChildListRemove Ht)));
      reflexivity.
Defined.

Lemma iframe_process (env : Env) (dom : store) (f : node) (src : Source) :
  nodeType (get dom f) = ELEMENT_NODE -> tagName (get dom f) = "IFRAME" ->
  namespaceURI (get dom f) <> Constant.SvgNamespace ->
  Source_eqb src ChildListRemove && negb (dom_has env f) = false ->
  exists data child,
    process_node env dom f src =
      ((if dom_sameorigin env f then [MutationMonitor f] else []) ++
       fst (if Source_eqb src ChildListRemove then removeObserver env f else skip) ++
       [DomWrite (if negb (dom_has env f) then CallAdd else CallUpdate) f
          (parentNode (get dom f)) data src], Ok child).
Proof.
  intros Ht Htag Hns Hg. apply String.eqb_neq in Hns.
  unfold process_node. rewrite Hg. cbv zeta. rewrite Ht. cbn [NodeType_eqb].
  rewrite !andb_false_r. cbn [andb]. rewrite Ht.
  unfold element_case. cbv zeta. rewrite Hns, Htag, parent_choice. simpl.
  destruct (dom_sameorigin env f), (Source_eqb src ChildListRemove); simpl;
    try (unfold removeObserver; simpl;
         destruct (dom_iframeContent env f) as [[[d|] [w|]]|]; simpl);
    eexists _, _; reflexivity.
Qed.

End LayoutProofs.

(* ------------------------------------------------------------------ *)
(** ** IFRAME teardown against the collaborators' tracking state *)

Module TrackingProofs.
Import Layout Tracking Fixtures.
Local Open Scope list_scope.

Lemma run_app (t : T) (a b : list Event) : run t (a ++ b) = run (run t a) b.
Proof. unfold run. apply fold_left_app. Qed.

Lemma iframe_insert_fresh (base : Env) (t : T) (dom : store) (f2 : node) :
  nodeType (get dom f2) = ELEMENT_NODE -> tagName (get dom f2) = "IFRAME" ->
  namespaceURI (get dom f2) <> Constant.SvgNamespace ->
  ids t !! f2 = None ->
  let t2 := run t (fst (process_node (env_of t base) dom f2 ChildListAdd)) in
  ids t2 !! f2 = Some (next_id t) /\ (forall k, k <> f2 -> ids t2 !! k = ids t !! k).
Proof.
  intros Ht Htag Hns Hf2.
  destruct (LayoutProofs.iframe_process (env_of t base) dom f2 ChildListAdd Ht Htag Hns eq_refl)
    as (data & child & ->).
  cbv zeta. cbn [fst Source_eqb skip mret M_ret].
  assert (Hh : dom_has (env_of t base) f2 = false).
  { simpl. apply bool_decide_eq_false_2. rewrite Hf2. apply is_Some_None. }
  rewrite Hh. simpl.
  destruct (dom_sameorigin base f2); simpl; unfold dom_add; simpl; rewrite Hf2; simpl;
    (split; [by rewrite lookup_insert_eq|]);
    intros k Hk; by rewrite lookup_insert_ne by congruence.
Qed.

(** C7.  On a removal notification for a mirrored IFRAME [f] whose
    content document is [dc] and window [w], the node processor unbinds
    the listeners of the frame element, then of the window and of the
    content document, disconnects the document's mutation watcher and
    tears the frame down, after which no listener, watcher, identity
    registry entry or iframe-map entry refers to [dc] (nor to [f] in the
    registry and the frame map), and no node holds the old identifier of
    [dc].  When the frame, or another IFRAME [f2] not yet registered, is
    inserted afterwards it receives the next value of the counter, which
    no other node holds and which differs from every identifier handed
    out before the teardown. *)
Theorem iframe_teardown (base : Env) (t : T) (dom : store) (f dc w f2 : node) :
  nodeType (get dom f) = ELEMENT_NODE -> tagName (get dom f) = "IFRAME" ->
  namespaceURI (get dom f) <> Constant.SvgNamespace ->
  is_Some (ids t !! f) ->
  iframeContentMap t !! f = Some (Some dc, Some w) ->
  (forall g c, iframeContentMap t !! g = Some (Some dc, c) -> g = f) ->
  (forall k v, ids t !! k = Some v -> (v < next_id t)%Z) ->
  (forall k1 k2 v, ids t !! k1 = Some v -> ids t !! k2 = Some v -> k1 = k2) ->
  nodeType (get dom f2) = ELEMENT_NODE -> tagName (get dom f2) = "IFRAME" ->
  namespaceURI (get dom f2) <> Constant.SvgNamespace ->
  f2 = f \/ ids t !! f2 = None ->
  let t' := run t (fst (process_node (env_of t base) dom f ChildListRemove)) in
  let t'' := run t' (fst (process_node (env_of t' base) dom f2 ChildListAdd)) in
  (exists data child,
     process_node (env_of t base) dom f ChildListRemove =
       ((if dom_sameorigin base f then [MutationMonitor f] else []) ++
        [EventUnbind f; EventUnbind w; EventUnbind dc; MutationDisconnect dc; RemoveIFrame f dc;
         DomWrite CallUpdate f (parentNode (get dom f)) data ChildListRemove], Ok child)) /\
  (f ∉ bound t') /\ (w ∉ bound t') /\ (dc ∉ bound t') /\ (dc ∉ watched t') /\
  ids t' !! f = None /\ ids t' !! dc = None /\
  iframeContentMap t' !! f = None /\ iframeMap t' !! dc = None /\
  (forall g c, iframeContentMap t' !! g <> Some (Some dc, c)) /\
  (forall i, ids t !! dc = Some i -> forall k, ids t'' !! k <> Some i) /\
  ids t'' !! f2 = Some (next_id t') /\ next_id t' = next_id t /\
  (forall k, k <> f2 -> ids t'' !! k <> Some (next_id t')) /\
  (forall k v, ids t !! k = Some v -> ids t'' !! f2 <> Some v).
Proof.
  intros Ht Htag Hns Hf Hc Huniq Hlt Hinj Ht2 Htag2 Hns2 Hf2.
  assert (Hg : Source_eqb ChildListRemove ChildListRemove
               && negb (dom_has (env_of t base) f) = false).
  { simpl. by rewrite bool_decide_eq_true_2. }
  destruct (LayoutProofs.iframe_process (env_of t base) dom f ChildListRemove Ht Htag Hns Hg)
    as (data & child & Heq).
  assert (Htr : process_node (env_of t base) dom f ChildListRemove =
    ((if dom_sameorigin base f then [MutationMonitor f] else []) ++
     [EventUnbind f; EventUnbind w; EventUnbind dc; MutationDisconnect dc; RemoveIFrame f dc;
      DomWrite CallUpdate f (parentNode (get dom f)) data ChildListRemove], Ok child)).
  { rewrite Heq. unfold removeObserver. simpl. rewrite Hc. simpl.
    by rewrite bool_decide_eq_true_2. }
  cbv zeta. rewrite Htr. cbn [fst].
  remember (run t _) as t' eqn:Ht'.
  assert (Hst : ids t' = delete dc (delete f (ids t)) /\ next_id t' = next_id t /\
    (f ∉ bound t') /\ (w ∉ bound t') /\ (dc ∉ bound t') /\ (dc ∉ watched t') /\
    iframeContentMap t' = delete f (iframeContentMap t) /\
    iframeMap t' = delete dc (iframeMap t)).
  { subst t'. destruct (dom_sameorigin base f); simpl;
      repeat split; try reflexivity; set_solver. }
  destruct Hst as (Hids & Hnext & Hbf & Hbw & Hbd & Hwd & Hicm & Him).
  assert (Hf2' : ids t' !! f2 = None).
  { rewrite Hids. destruct Hf2 as [->|Hf2].
    - destruct (decide (dc = f)) as [->|Hne].
      + by rewrite lookup_delete_eq.
      + rewrite lookup_delete_ne by done. by rewrite lookup_delete_eq.
    - destruct (decide (dc = f2)) as [->|Hne]; [by rewrite lookup_delete_eq|].
      rewrite lookup_delete_ne by done.
      destruct (decide (f = f2)) as [->|Hne']; [by rewrite lookup_delete_eq|].
      by rewrite lookup_delete_ne. }
  destruct (iframe_insert_fresh base t' dom f2 Ht2 Htag2 Hns2 Hf2') as [Hnew Hkeep].
  cbv zeta in Hnew, Hkeep.
  (* every identifier left in the registry was handed out before *)
  assert (Hsub : forall k v, ids t' !! k = Some v -> ids t !! k = Some v).
  { intros k v. rewrite Hids, !lookup_delete_Some. naive_solver. }
  split; [by exists data, child|].
  do 4 (split; [done|]).
  split.
  { rewrite Hids. destruct (decide (dc = f)) as [->|Hne].
    - by rewrite lookup_delete_eq.
    - rewrite lookup_delete_ne by done. by rewrite lookup_delete_eq. }
  split; [by rewrite Hids, lookup_delete_eq|].
  split; [by rewrite Hicm, lookup_delete_eq|].
  split; [by rewrite Him, lookup_delete_eq|].
  split.
  { intros g c. rewrite Hicm. destruct (decide (f = g)) as [<-|Hne].
    - by rewrite lookup_delete_eq.
    - rewrite lookup_delete_ne by done. intros Hgc. apply Huniq in Hgc. congruence. }
  split.
  { intros i Hi k Hk. destruct (decide (k = f2)) as [->|Hne].
    - rewrite Hnew, Hnext in Hk. injection Hk as <-. apply Hlt in Hi. lia.
    - rewrite Hkeep in Hk by done. pose proof (Hsub _ _ Hk) as Hk'.
      pose proof (Hinj _ _ _ Hk' Hi) as ->.
      rewrite Hids, lookup_delete_eq in Hk. discriminate. }
  split; [exact Hnew|].
  split; [exact Hnext|].
  split.
  { intros k Hk Hv. rewrite Hkeep in Hv by done. apply Hsub, Hlt in Hv.
    rewrite Hnext in Hv. lia. }
  { intros k v Hv. rewrite Hnew, Hnext. intros [= <-]. apply Hlt in Hv. lia. }
Qed.

Lemma iframe_teardown_witness :
  let t := tracked in
  let t' := run t (fst (process_node (env_of t env0) page_reinserted 5 ChildListRemove)) in
  let t'' := run t' (fst (process_node (env_of t' env0) page_reinserted 5 ChildListAdd)) in
  (6 ∉ bound t') /\ ids t' !! 6 = None /\ iframeMap t' !! 6 = None /\
  ids t'' !! 5 = Some 4%Z.
Proof.
  assert (Huniq : forall g c, iframeContentMap tracked !! g = Some (Some 6, c) -> g = 5).
  { intros g c H. destruct (decide (g = 5)) as [->|Hne]; [done|].
    unfold tracked in H. simpl in H. rewrite lookup_singleton_ne in H by congruence.
    discriminate. }
  assert (Hlt : forall k v, ids tracked !! k = Some v -> (v < next_id tracked)%Z).
  { intros k v H. unfold tracked in H. simpl in H. simpl.
    rewrite !lookup_insert_Some, lookup_empty in H. naive_solver lia. }
  assert (Hinj : forall k1 k2 v, ids tracked !! k1 = Some v -> ids tracked !! k2 = Some v ->
                 k1 = k2).
  { intros k1 k2 v H1 H2. unfold tracked in H1, H2. simpl in H1, H2.
    rewrite !lookup_insert_Some, lookup_empty in H1, H2. naive_solver lia. }
  pose proof (iframe_teardown env0 tracked page_reinserted 5 6 7 5
    eq_refl eq_refl ltac:(vm_compute; discriminate) ltac:(vm_compute; eauto)
    eq_refl Huniq Hlt Hinj eq_refl eq_refl ltac:(vm_compute; discriminate)
    (or_introl eq_refl)) as H.
  cbv zeta in H |- *.
  destruct H as (_ & _ & _ & Hdc & _ & _ & Hids & _ & Him & _ & _ & Hnew & _).
  split; [exact Hdc|]. split; [exact Hids|]. split; [exact Him|].
  refine (eq_trans Hnew _). vm_compute. reflexivity.
Defined.

End TrackingProofs.

(* ------------------------------------------------------------------ *)
(** ** Further properties of the snapshot module *)

Module SnapshotExtras.
Import Snapshot Fixtures SnapshotViews.
Local Open Scope list_scope.

Lemma getId_node_values (s : State) (n : node) : values (snd (getId_node n s)) = values s.
Proof. unfold getId_node. by destruct (idMap s !! n). Qed.

Lemma getId_node_lookup (s : State) (n : node) :
  idMap (snd (getId_node n s)) !! n = Some (fst (getId_node n s)).
Proof.
  unfold getId_node. destruct (idMap s !! n) eqn:E; [done|]. simpl.
  by rewrite lookup_insert_eq.
Qed.

(** [metadata] gives [0] for a [null] node and changes nothing; for a
    node it gives the identifier [getId] gives, which is at least 1,
    and asking again returns the same identifier with no further
    change.  The privacy level is [Sensitive] exactly when conversions
    are on. *)
Theorem metadata_ids (c : bool) (s : State) (n : node) :
  reachable s ->
  fst (metadata c None s) = mkMeta 0 (if c then Sensitive else PrivacySnapshot) /\
  snd (metadata c None s) = s /\
  (let '(m1, s1) := metadata c (Some n) s in
   Some (md_id m1) = fst (getId (Some n) s) /\ s1 = snd (getId (Some n) s) /\
   (1 <= md_id m1)%Z /\ md_privacy m1 = (if c then Sensitive else PrivacySnapshot) /\
   metadata c (Some n) s1 = (m1, s1)).
Proof.
  intros Hr. pose proof (SnapshotProofs.reachable_inv s Hr) as (H1 & H2 & H3).
  split; [done|]. split; [done|].
  unfold metadata, getId, getId_node. destruct (idMap s !! n) as [i|] eqn:E; simpl.
  - rewrite E. repeat split; try done. by apply (H2 n).
  - rewrite lookup_insert_eq. repeat split; done || lia.
Qed.

Lemma metadata_ids_witness :
  reachable init_state /\
  fst (metadata false None init_state) = mkMeta 0 PrivacySnapshot /\
  md_id (fst (metadata false (Some 7) init_state)) = 1%Z.
Proof.
  split; [constructor|]. split; [|reflexivity].
  exact (proj1 (metadata_ids false init_state 7 reach_init)).
Defined.

Lemma classify_tag (dom : store) (n : node) (s : State) (t : string) :
  tag (classify dom n s) = Some t -> t <> "SCRIPT" /\ t <> "STYLE" /\ t <> "NOSCRIPT".
Proof.
  unfold classify. intros H. destruct (nodeType (get dom n)); cbn [tag] in H; try discriminate.
  - destruct (existsb (String.eqb (tagName (get dom n))) ["NOSCRIPT"; "SCRIPT"; "STYLE"]) eqn:E;
      [discriminate|].
    injection H as <-. simpl in E. rewrite !orb_false_iff in E.
    destruct E as (E1 & E2 & E3 & _). apply String.eqb_neq in E1, E2, E3. auto.
  - repeat case_match; try discriminate.
    injection H as <-. unfold TextTag. repeat split; discriminate.
  - injection H as <-. unfold DocumentTag. repeat split; discriminate.
Qed.

Lemma fold_process_tags (dom : store) (l : list node) (s : State) :
  Forall record_tag_ok (values s) ->
  Forall record_tag_ok (values (fold_left (process dom) l s)).
Proof.
  revert s. induction l as [|x l IH]; intros s Hs; simpl; [done|]. apply IH.
  unfold process, add.
  destruct (tag_truthy (tag (classify dom x s))) eqn:Ht; [|done].
  pose proof (getId_node_values s x) as Hv.
  destruct (getId_node x s) as [id s1]. simpl in *. rewrite Hv.
  apply Forall_app. split; [done|]. constructor; [|constructor].
  unfold record_tag_ok. simpl. split; [done|].
  destruct (tag (classify dom x s)) as [t|] eqn:Et; [|discriminate].
  destruct (classify_tag dom x s t Et) as (? & ? & ?). split_and!; congruence.
Qed.

(** Every record a snapshot produces has a non-empty tag, and none is
    tagged SCRIPT, STYLE or NOSCRIPT: those elements, like the document
    node and text whose parent has no identifier, are walked but not
    recorded. *)
Theorem snapshot_record_tags (dom : store) (fuel : nat) (document : node) (s : State) :
  Forall record_tag_ok (values (snapshot dom fuel document s)).
Proof.
  unfold snapshot, traverse. rewrite SnapshotProofs.traverse_loop_fold.
  apply fold_process_tags. constructor.
Qed.

Lemma rec_of_mono (s s' : State) (ns : list node) (vs : list NodeValue) :
  (forall m i, idMap s !! m = Some i -> idMap s' !! m = Some i) ->
  Forall2 (rec_of s) ns vs -> Forall2 (rec_of s') ns vs.
Proof. intros Hk HF. eapply Forall2_impl; [exact HF|]. unfold rec_of. auto. Qed.

Lemma distinct_ids (s : State) (ns : list node) (vs : list NodeValue) :
  inv s -> NoDup ns -> Forall2 (rec_of s) ns vs -> NoDup (map nv_id vs).
Proof.
  intros (_ & _ & Hinj) Hnd HF. induction HF as [|m r ns vs Hmr HF IH]; simpl; [constructor|].
  apply NoDup_cons in Hnd as [Hm Hnd]. apply NoDup_cons. split; [|by apply IH].
  intros Hin. apply Hm. clear IH Hnd.
  induction HF as [|m' r' ns vs Hmr' HF IH]; simpl in *; [by apply elem_of_nil in Hin|].
  apply elem_of_cons in Hin as [Heq|Hin].
  - unfold rec_of in *. rewrite Heq in Hmr. apply elem_of_cons. left. by apply (Hinj m m' (nv_id r')).
  - apply elem_of_cons. right. apply IH; [|done]. intros Hmn. apply Hm. by apply elem_of_cons; right.
Qed.

Lemma fold_process_ids (dom : store) (l : list node) (s : State) (ns : list node) :
  inv s -> NoDup ns -> NoDup l -> (forall x, x ∈ l -> x ∉ ns) ->
  Forall2 (rec_of s) ns (values s) ->
  exists ns', NoDup ns' /\ Forall2 (rec_of (fold_left (process dom) l s)) ns'
                          (values (fold_left (process dom) l s)) /\
              inv (fold_left (process dom) l s).
Proof.
  revert s ns. induction l as [|x l IH]; intros s ns Hi Hns Hl Hdis HF; simpl.
  { by exists ns. }
  apply NoDup_cons in Hl as [Hx Hl].
  assert (Hxn : x ∉ ns) by (apply Hdis; apply elem_of_cons; by left).
  remember (process dom s x) as s' eqn:Es'. unfold process, add in Es'.
  destruct (tag_truthy (tag (classify dom x s))) eqn:Ht.
  - pose proof (getId_node_values s x) as Hv. pose proof (getId_node_lookup s x) as Hlk.
    pose proof (SnapshotProofs.getId_node_inv s x Hi) as Hi1.
    pose proof (SnapshotProofs.getId_node_keeps s x) as Hk.
    destruct (getId_node x s) as [id s1]. simpl in *. subst s'.
    apply (IH _ (ns ++ [x])).
    + destruct Hi1 as (? & ? & ?). split_and!; done.
    + apply NoDup_app. split_and!; [done| |apply NoDup_singleton].
      intros y Hy Hy'. apply list_elem_of_singleton in Hy'. subst. done.
    + done.
    + intros y Hy Hy'. apply elem_of_app in Hy' as [Hy'|Hy'].
      * apply (Hdis y); [by apply elem_of_cons; right|done].
      * apply list_elem_of_singleton in Hy'. subst. done.
    + simpl. rewrite Hv. apply Forall2_app.
      * eapply rec_of_mono; [|exact HF]. simpl. exact Hk.
      * constructor; [|constructor]. unfold rec_of. simpl. exact Hlk.
  - subst s'. apply (IH s ns); try done. intros y Hy. apply Hdis. by apply elem_of_cons; right.
Qed.

(** When the walk dequeues no node twice (as in a tree), the records of a
    snapshot carry pairwise distinct identifiers, also when the registry
    already held identifiers from before the snapshot. *)
Theorem snapshot_ids_distinct (dom : store) (fuel : nat) (document : node) (s : State) :
  reachable s -> NoDup (visit dom fuel [document]) ->
  NoDup (map nv_id (values (snapshot dom fuel document s))).
Proof.
  intros Hr Hnd. unfold snapshot, traverse. rewrite SnapshotProofs.traverse_loop_fold.
  assert (Hi : inv (set_values [] s)).
  { apply SnapshotProofs.reachable_inv. by constructor. }
  assert (Hdis : forall x, x ∈ visit dom fuel [document] -> x ∉ ([] : list node)).
  { intros x _ Hx. by apply elem_of_nil in Hx. }
  destruct (fold_process_ids dom (visit dom fuel [document]) (set_values [] s) [] Hi
              (NoDup_nil_2) Hnd Hdis (List.Forall2_nil _)) as (ns & Hns & HF & Hi').
  exact (distinct_ids _ ns _ Hi' Hns HF).
Qed.

Lemma snapshot_ids_distinct_witness :
  reachable init_state /\ NoDup (visit div_hello 3 [1]) /\
  NoDup (map nv_id (values (snapshot div_hello 3 1 init_state))) /\
  map nv_id (values (snapshot div_hello 3 1 init_state)) = [1; 2]%Z.
Proof.
  assert (Hnd : NoDup (visit div_hello 3 [1])).
  { refine (bool_decide_unpack _ _). vm_compute. exact I. }
  split; [constructor|]. split; [exact Hnd|]. split.
  - exact (snapshot_ids_distinct div_hello 3 1 init_state reach_init Hnd).
  - vm_compute. reflexivity.
Defined.

Lemma step_index (s s' : State) : step s s' -> (index s <= index s')%Z.
Proof.
  intros Hs. destruct Hs as [s0 [n|]|s0 dom0 n p0 d0|s0|s0 v0]; simpl; try lia.
  - unfold getId_node. destruct (idMap s0 !! n); simpl; lia.
  - unfold add. destruct (tag_truthy (tag d0)); [|lia]. unfold getId_node.
    destruct (idMap s0 !! n); simpl; lia.
Qed.

Lemma steps_index (s s' : State) : rtc step s s' -> (index s <= index s')%Z.
Proof. induction 1 as [|x y z Hxy _ IH]; [lia|]. apply step_index in Hxy. lia. Qed.

Lemma getId_node_below (s : State) (n : node) :
  inv s -> (fst (getId_node n s) < index (snd (getId_node n s)))%Z.
Proof.
  intros (H1 & H2 & H3). unfold getId_node.
  destruct (idMap s !! n) as [i|] eqn:Hn; simpl; [apply H2 in Hn|]; lia.
Qed.

(** [stop] empties the registry and [start] leaves only the page root in
    it, but neither resets the counter: the root's new identifier is the
    counter's value, larger than every identifier in the registry before
    and than every identifier [getId] (directly or through [add]) handed
    out in any earlier state from which the session went on to [s]. *)
Theorem restart_keeps_counter (dom : store) (document r : node) (s : State) :
  reachable s -> documentElement (get dom document) = Some r ->
  idMap (stop s) = ∅ /\ index (stop s) = index s /\
  idMap (start dom document s) = {[r := index s]} /\
  index (start dom document s) = (index s + 1)%Z /\
  (forall m i, idMap s !! m = Some i -> (i < index s)%Z) /\
  (forall s0 n, reachable s0 -> rtc step (snd (getId_node n s0)) s ->
     (fst (getId_node n s0) < index s)%Z).
Proof.
  intros Hr Hd. pose proof (SnapshotProofs.reachable_inv s Hr) as (H1 & H2 & H3).
  split_and!; try done.
  - unfold start. rewrite Hd. simpl. unfold getId_node. simpl. rewrite lookup_empty. simpl.
    by rewrite insert_empty.
  - unfold start. rewrite Hd. simpl. unfold getId_node. simpl. by rewrite lookup_empty.
  - intros m i Hm. specialize (H2 m i Hm). lia.
  - intros s0 n Hr0 Hs. apply steps_index in Hs.
    pose proof (getId_node_below s0 n (SnapshotProofs.reachable_inv s0 Hr0)). lia.
Qed.

Lemma restart_keeps_counter_witness :
  reachable (start div_hello 1 init_state) /\ documentElement (get div_hello 1) = Some 2 /\
  idMap (start div_hello 1 (start div_hello 1 init_state)) = {[2 := 2%Z]}.
Proof.
  assert (Hr : reachable (start div_hello 1 init_state)).
  { unfold start. apply reach_getId, reach_reset, reach_init. }
  split; [exact Hr|]. split; [reflexivity|].
  exact (proj1 (proj2 (proj2 (restart_keeps_counter div_hello 1 2 _ Hr eq_refl)))).
Defined.

(** The snapshot's attribute extraction never yields a name twice.  An
    attribute named [__proto__] creates no key; for any other name given
    more than once, the last value is the one kept. *)
Theorem snapshot_getAttributes_last (attrs : list (string * string)) (k : string) :
  List.NoDup (map fst (getAttributes attrs)) /\
  lookup_attr k (getAttributes attrs) =
    if String.eqb k "__proto__" then None else lookup_attr k (rev attrs).
Proof.
  split.
  - exact (ObjectProofs.fold_set_attr_nodup (fun _ => false) attrs [] (List.NoDup_nil _)).
  - unfold getAttributes.
    rewrite (ObjectProofs.fold_set_attr_lookup (fun _ => false) attrs [] k). cbn [orb lookup_attr].
    destruct (String.eqb k "__proto__"); [done|]. by destruct (lookup_attr k (rev attrs)).
Qed.

End SnapshotExtras.

(* ------------------------------------------------------------------ *)
(** ** Further properties of the node processor *)

Module LayoutExtras.
Import Layout Fixtures ObjectProofs LayoutProofs LayoutViews MoreFixtures.
Local Open Scope list_scope.

Lemma wcount_bind {A B} (m : M A) (k : A -> M B) :
  wcount (m ≫= k) = wcount m + match snd m with Ok a => wcount (k a) | Throw _ => 0 end.
Proof.
  unfold wcount, mbind, M_bind. destruct m as [tr [a|e]]; simpl; [|lia].
  destruct (k a) as [tr' r]. simpl. by rewrite filter_app, length_app.
Qed.

Lemma wcount_bind_le {A B} (m : M A) (k : A -> M B) i j :
  wcount m <= i -> (forall a, wcount (k a) <= j) -> wcount (m ≫= k) <= i + j.
Proof. intros Hm Hk. rewrite wcount_bind. destruct (snd m); [specialize (Hk a)|]; lia. Qed.

Ltac wc :=
  match goal with
  | |- wcount (_ ≫= _) <= _ =>
      first [ eapply Nat.le_trans; [apply (wcount_bind_le _ _ 0 1); [wc | intros ?; wc] |]; lia
            | eapply Nat.le_trans; [apply (wcount_bind_le _ _ 1 0); [wc | intros ?; wc] |]; lia
            | eapply Nat.le_trans; [apply (wcount_bind_le _ _ 0 0); [wc | intros ?; wc] |]; lia ]
  | |- wcount (mret _) <= _ => unfold wcount; simpl; lia
  | |- wcount (throw _) <= _ => unfold wcount; simpl; lia
  | |- wcount (emit ?e) <= _ => unfold wcount; simpl; destruct e; simpl; lia
  | |- wcount (write _ _ _ _ _) <= _ => unfold wcount; simpl; lia
  | |- wcount skip <= _ => unfold wcount; simpl; lia
  | |- wcount (observe _ _) <= _ => unfold observe; wc
  | |- wcount (removeObserver _ _) <= _ => unfold removeObserver; wc
  | |- wcount (getStyleValue _) <= _ => unfold getStyleValue; wc
  | |- wcount (getCssRules _) <= _ => unfold getCssRules; wc
  | |- wcount (let '(_, _) := ?p in _) <= _ => destruct p; wc
  | |- wcount (match ?x with _ => _ end) <= _ => destruct x; wc
  end.

Lemma element_case_wcount env dom m src call ins : wcount (element_case env dom m src call ins) <= 1.
Proof. unfold element_case. cbv zeta. wc. Qed.

Lemma element_case_writes_ok env dom m src call ins :
  Forall (fun e => match e with DomWrite c x _ _ s' => x = m /\ c = call /\ s' = src | _ => True end)
    (fst (element_case env dom m src call ins)).
Proof. unfold element_case. cbv zeta. repeat forall_step. Qed.

Lemma process_node_wcount env dom n src : wcount (process_node env dom n src) <= 1.
Proof.
  unfold process_node. cbv zeta.
  repeat match goal with
  | |- context [match ?x with _ => _ end] => lazymatch x with context [element_case] => fail | _ => destruct x end
  end.
  all: first [apply element_case_wcount | wc].
Qed.

Lemma process_node_writes_ok env dom n src :
  Forall (write_ok env dom n src) (fst (process_node env dom n src)).
Proof.
  unfold process_node.
  destruct (Source_eqb src ChildListRemove && negb (dom_has env n)); [constructor|].
  cbv zeta.
  destruct (negb (Source_eqb src Discover) && NodeType_eqb (nodeType (get dom n)) TEXT_NODE &&
            match parentElement dom n with
            | Some p => String.eqb (tagName (get dom p)) "STYLE" | None => false end) eqn:Hb.
  - destruct (parentElement dom n) as [q|] eqn:Hpe; [|rewrite andb_false_r in Hb; discriminate].
    destruct (parentElement_Some _ _ _ Hpe) as [Hpn Hq]. rewrite Hpn. simpl. rewrite Hq.
    apply andb_prop in Hb as [Hb Hs]. apply andb_prop in Hb as [Hd Ht].
    apply String.eqb_eq in Hs.
    eapply Forall_impl; [apply element_case_writes_ok|].
    intros [c x p data s'| | | | | | | | | | | |]; simpl; try done.
    intros (-> & -> & ->). split; [done|]. split; [done|]. right.
    split; [by destruct (nodeType (get dom n))|]. split; [done|]. split; [done|].
    by destruct src.
  - destruct (nodeType (get dom n)) eqn:Ht.
    + eapply Forall_impl; [apply element_case_writes_ok|].
      intros [c x p data s'| | | | | | | | | | | |]; simpl; try done.
      intros (-> & -> & ->). unfold call_of. auto.
    + repeat (forall_step || solve [apply emit_Forall; unfold write_ok, call_of; simpl;
        try match goal with H : negb (dom_has _ _) = _ |- _ => rewrite H end; auto]).
    + repeat (forall_step || solve [apply emit_Forall; unfold write_ok, call_of; simpl;
        try match goal with H : negb (dom_has _ _) = _ |- _ => rewrite H end; auto]).
    + repeat (forall_step || solve [apply emit_Forall; unfold write_ok, call_of; simpl;
        try match goal with H : negb (dom_has _ _) = _ |- _ => rewrite H end; auto]).
    + repeat (forall_step || solve [apply emit_Forall; unfold write_ok, call_of; simpl;
        try match goal with H : negb (dom_has _ _) = _ |- _ => rewrite H end; auto]).
    + repeat (forall_step || solve [apply emit_Forall; unfold write_ok, call_of; simpl;
        try match goal with H : negb (dom_has _ _) = _ |- _ => rewrite H end; auto]).
Qed.

Lemma TP_ok {A} (Q : string -> Prop) (m : M A) (a : A) : snd m = Ok a -> TP Q m.
Proof. intros Hs e He. congruence. Qed.

Lemma bind_TP {A B} (Q : string -> Prop) (m : M A) (k : A -> M B) :
  TP Q m -> (forall a, TP Q (k a)) -> TP Q (m ≫= k).
Proof.
  intros Hm Hk e. unfold mbind, M_bind. destruct m as [tr [a|e']]; simpl.
  - specialize (Hk a e). destruct (k a) as [tr' r]. simpl in *. intros Hr.
    destruct (Hk Hr) as (Hne & [tr0 ->] & HQ). split; [done|]. split; [|done].
    exists (tr ++ tr0). by rewrite app_assoc.
  - intros [= <-]. exact (Hm e' eq_refl).
Qed.

Lemma getCssRules_TP (Q : string -> Prop) (sh : option CssRules) :
  (forall e, sh = Some (Raises e) -> Q e) -> TP Q (getCssRules sh).
Proof.
  intros HQ e. unfold getCssRules. destruct sh as [[l|e']|]; simpl; try discriminate.
  destruct (String.eqb_spec e' "SecurityError"); simpl; [discriminate|].
  intros [= <-]. split; [done|]. split; [by exists []|]. by apply HQ.
Qed.

Lemma TP_impl {A} (P Q : string -> Prop) (m : M A) :
  TP P m -> (forall e, P e -> Q e) -> TP Q m.
Proof. intros HP HPQ e He. destruct (HP e He) as (? & ? & ?). auto. Qed.

Ltac tp leaf :=
  match goal with
  | |- TP _ (_ ≫= _) => apply bind_TP; [tp leaf | intros ?; tp leaf]
  | |- TP _ (getCssRules _) =>
      apply getCssRules_TP; intros ? He; try (injection He as He; subst); leaf
  | |- TP _ (getStyleValue _) => unfold getStyleValue; tp leaf
  | |- TP _ (observe _ _) => unfold observe; tp leaf
  | |- TP _ (removeObserver _ _) => unfold removeObserver; tp leaf
  | |- TP _ (let '(_, _) := ?p in _) => destruct p; tp leaf
  | |- TP _ (match ?x with _ => _ end) => destruct x eqn:?; tp leaf
  | |- TP _ _ => eapply TP_ok; reflexivity
  end.

Lemma element_case_TP env dom m src call ins :
  TP (raised_at env dom m) (element_case env dom m src call ins).
Proof.
  unfold element_case. cbv zeta.
  set (tag := if String.eqb (namespaceURI (get dom m)) Constant.SvgNamespace
              then String.append Constant.SvgPrefix (tagName (get dom m))
              else tagName (get dom m)).
  assert (Htag : forall t, String.eqb tag t = true -> t = "STYLE" \/ t = "LINK" ->
            namespaceURI (get dom m) <> Constant.SvgNamespace /\ tagName (get dom m) = t).
  { intros t Ht Hst. unfold tag in Ht.
    destruct (String.eqb_spec (namespaceURI (get dom m)) Constant.SvgNamespace).
    - destruct Hst as [->| ->]; cbn in Ht; discriminate.
    - by apply String.eqb_eq in Ht. }
  tp ltac:(idtac; match goal with
    | H : String.eqb tag "STYLE" = true |- _ =>
        destruct (Htag _ H (or_introl eq_refl)) as [Hn Ht];
        split; [exact Hn|left; split; [exact Ht|assumption]]
    | H : String.eqb tag "LINK" = true, H2 : (electron env && _) = true |- _ =>
        destruct (Htag _ H (or_intror eq_refl)) as [Hn Ht];
        apply andb_prop in H2 as [He1 He2];
        split; [exact Hn|right; split; [exact Ht|split; [exact He1|split; [|assumption]]]];
        destruct (lookup_attr "rel" _) as [r|]; [|discriminate];
        apply String.eqb_eq in He2; by subst r
    end).
Qed.

Lemma process_node_TP env dom n src :
  TP (fun e => exists m, (m = n \/ parentElement dom n = Some m) /\
        nodeType (get dom m) = ELEMENT_NODE /\ raised_at env dom m e)
     (process_node env dom n src).
Proof.
  unfold process_node.
  destruct (Source_eqb src ChildListRemove && negb (dom_has env n)); [by eapply TP_ok|].
  cbv zeta.
  destruct (negb (Source_eqb src Discover) && NodeType_eqb (nodeType (get dom n)) TEXT_NODE &&
            match parentElement dom n with
            | Some p => String.eqb (tagName (get dom p)) "STYLE" | None => false end) eqn:Hb.
  - destruct (parentElement dom n) as [q|] eqn:Hpe; [|rewrite andb_false_r in Hb; discriminate].
    destruct (parentElement_Some _ _ _ Hpe) as [Hpn Hq]. rewrite Hpn. simpl. rewrite Hq.
    eapply TP_impl; [apply element_case_TP|].
    intros e He. exists q. split; [by right|]. by split.
  - destruct (nodeType (get dom n)) eqn:Ht;
      [eapply TP_impl; [apply element_case_TP|]; intros e He; exists n; by split; [left|]|..];
      tp fail.
Qed.






Lemma process_element env dom n src :
  nodeType (get dom n) = ELEMENT_NODE ->
  Source_eqb src ChildListRemove && negb (dom_has env n) = false ->
  process_node env dom n src =
    element_case env dom n src (call_of env n)
      (negb (Nat.eqb (ownerDocument (get dom n)) (document env))).
Proof.
  intros Ht Hg. unfold process_node. rewrite Hg. cbv zeta. rewrite Ht. cbn [NodeType_eqb].
  rewrite !andb_false_r. cbn [andb]. by rewrite Ht.
Qed.

(** Each call of the node processor makes at most one [dom.add] /
    [dom.update] call.  That write passes the mutation source on, uses
    [add] exactly when the written node is not yet mirrored, and writes
    the processed node itself, or, for a text node inside a STYLE
    element reported by a mutation, that STYLE element. *)
Theorem process_node_single_write (env : Env) (dom : store) (n : node) (src : Source) :
  wcount (process_node env dom n src) <= 1 /\
  Forall (write_ok env dom n src) (fst (process_node env dom n src)).
Proof. split; [apply process_node_wcount | apply process_node_writes_ok]. Qed.

(** The node processor raises only what reading a style sheet's rules
    raises, never a SecurityError (that one is swallowed), and only
    after logging it as a warning as its last call.  The sheet is that
    of the processed element, or of the STYLE element a text node
    reported by a mutation belongs to: a STYLE element's own sheet, or,
    on Electron, the sheet of a stylesheet LINK in
    [document.styleSheets]. *)
Theorem process_node_throws (env : Env) (dom : store) (n : node) (src : Source) (e : string) :
  snd (process_node env dom n src) = Throw e ->
  e <> "SecurityError" /\
  (exists tr, fst (process_node env dom n src) = tr ++ [InternalLog CssRulesCode Warning (Some e)]) /\
  exists m, (m = n \/ parentElement dom n = Some m) /\ nodeType (get dom m) = ELEMENT_NODE /\
    raised_at env dom m e.
Proof. intros He. exact (process_node_TP env dom n src e He). Qed.

Lemma process_node_throws_witness :
  snd (process_node env0 media_page 2 Discover) = Throw "NetworkError" /\
  exists m, (m = 2 \/ parentElement media_page 2 = Some m) /\
    nodeType (get media_page m) = ELEMENT_NODE /\ raised_at env0 media_page m "NetworkError".
Proof.
  assert (He : snd (process_node env0 media_page 2 Discover) = Throw "NetworkError") by reflexivity.
  split; [exact He|]. exact (proj2 (proj2 (process_node_throws env0 media_page 2 Discover _ He))).
Defined.



(** For a VIDEO, AUDIO or SOURCE element, an inline [data:] source is
    blanked before the element is written: the written attributes have
    the same keys in the same order, [src] is [""] when it started with
    [data:] and unchanged otherwise, and every other attribute is
    unchanged. *)
Theorem media_src_blanked env dom n src :
  nodeType (get dom n) = ELEMENT_NODE ->
  namespaceURI (get dom n) <> Constant.SvgNamespace ->
  In (tagName (get dom n)) ["VIDEO"; "AUDIO"; "SOURCE"] ->
  Source_eqb src ChildListRemove && negb (dom_has env n) = false ->
  exists attrs,
    process_node env dom n src =
      ([DomWrite (call_of env n) n (parentNode (get dom n))
          (mkData (tagName (get dom n)) (Some attrs) None) src], Ok None) /\
    map fst attrs = map fst (getAttributes (get dom n)) /\
    lookup_attr "src" attrs =
      match lookup_attr "src" (getAttributes (get dom n)) with
      | Some s => Some (if starts_with "data:" s then "" else s)
      | None => None
      end /\
    (forall k, k <> "src" -> lookup_attr k attrs = lookup_attr k (getAttributes (get dom n))).
Proof.
  intros Ht Hns Htag Hg. rewrite process_element by done.
  unfold element_case. cbv zeta. apply String.eqb_neq in Hns. rewrite Hns, parent_choice.
  assert (Hm : String.eqb (tagName (get dom n)) "VIDEO" || String.eqb (tagName (get dom n)) "AUDIO"
               || String.eqb (tagName (get dom n)) "SOURCE" = true /\
               forall t, In t ["HTML"; "SCRIPT"; "NOSCRIPT"; "META"; "HEAD"; "BASE"; "STYLE";
                               "IFRAME"; "LINK"] -> String.eqb (tagName (get dom n)) t = false).
  { destruct Htag as [<-|[<-|[<-|[]]]]; (split; [reflexivity|]);
      intros t Hin; simpl in Hin; intuition (subst; reflexivity). }
  destruct Hm as [Hm Hnot].
  rewrite !Hnot by (simpl; tauto). rewrite Hm. cbn [andb orb].
  remember (getAttributes (get dom n)) as attrs eqn:Ha.
  unfold Constant.Src.
  destruct (lookup_attr "src" attrs) as [s|] eqn:Hs.
  - destruct (starts_with "data:" s) eqn:Hd.
    + eexists. split; [reflexivity|]. split; [|split].
      * apply set_attr_keys. destruct (in_dec string_dec "src" (map fst attrs)) as [|Hn]; [done|].
        apply lookup_attr_None in Hn. congruence.
      * by rewrite lookup_set_attr_plain, String.eqb_refl by discriminate.
      * intros k Hk. rewrite lookup_set_attr_plain by discriminate.
        by destruct (String.eqb_spec k "src").
    + eexists. split; [reflexivity|]. auto.
  - eexists. split; [reflexivity|]. auto.
Qed.

Lemma media_src_blanked_witness :
  lookup_attr "src" (getAttributes (get media_page 4)) = Some "data:video/mp4;base64,AAAA" /\
  exists attrs,
    process_node env0 media_page 4 Discover =
      ([DomWrite CallAdd 4 (Some 1) (mkData "VIDEO" (Some attrs) None) Discover], Ok None) /\
    lookup_attr "src" attrs = Some "".
Proof.
  assert (Hs : lookup_attr "src" (getAttributes (get media_page 4)) = Some "data:video/mp4;base64,AAAA")
    by reflexivity.
  split; [exact Hs|].
  destruct (media_src_blanked env0 media_page 4 Discover eq_refl ltac:(vm_compute; discriminate)
              ltac:(simpl; auto) eq_refl) as (attrs & Hp & _ & Hsrc & _).
  exists attrs. split; [exact Hp|]. rewrite Hsrc, Hs. reflexivity.
Defined.

(** A HEAD element is written with an added [*B] attribute holding
    [protocol//host pathname] of the page location, or, inside a frame,
    of the frame document's location when it has one; its other
    attributes are written unchanged. *)
Theorem head_base env dom n src :
  nodeType (get dom n) = ELEMENT_NODE ->
  namespaceURI (get dom n) <> Constant.SvgNamespace ->
  tagName (get dom n) = "HEAD" ->
  Source_eqb src ChildListRemove && negb (dom_has env n) = false ->
  exists attrs,
    process_node env dom n src =
      ([DomWrite (call_of env n) n (parentNode (get dom n)) (mkData "HEAD" (Some attrs) None) src],
       Ok None) /\
    lookup_attr Constant.Base attrs = Some (loc_base (head_location env dom n)) /\
    (forall k, k <> Constant.Base -> lookup_attr k attrs = lookup_attr k (getAttributes (get dom n))).
Proof.
  intros Ht Hns Htag Hg. rewrite process_element by done.
  unfold element_case, head_location. cbv zeta. apply String.eqb_neq in Hns.
  rewrite Hns, parent_choice, Htag.
  remember (getAttributes (get dom n)) as attrs eqn:Ha.
  simpl. eexists. split; [reflexivity|]. split.
  - by rewrite lookup_set_attr_plain, String.eqb_refl by discriminate.
  - intros k Hk. rewrite lookup_set_attr_plain by discriminate. by destruct (String.eqb_spec k Constant.Base).
Qed.

Lemma head_base_witness :
  exists attrs,
    process_node env0 page 2 Discover =
      ([DomWrite CallAdd 2 (Some 1) (mkData "HEAD" (Some attrs) None) Discover], Ok None) /\
    lookup_attr "*B" attrs = Some "https://example.com/".
Proof.
  destruct (head_base env0 page 2 Discover eq_refl ltac:(vm_compute; discriminate) eq_refl eq_refl)
    as (attrs & Hp & Hb & _).
  exists attrs. split; [exact Hp|]. exact Hb.
Defined.

(** SCRIPT, META and BASE elements are never written, and a NOSCRIPT
    element is written only as an empty shell (no attributes, value
    [""]); processing any of them returns no follow-up node and raises
    nothing. *)
Theorem content_tags_not_mirrored (env : Env) (dom : store) (n : node) (src : Source) :
  nodeType (get dom n) = ELEMENT_NODE ->
  namespaceURI (get dom n) <> Constant.SvgNamespace ->
  In (tagName (get dom n)) ["SCRIPT"; "META"; "BASE"; "NOSCRIPT"] ->
  Forall (fun e => match e with
                   | DomWrite _ x _ data _ =>
                       x = n /\ tagName (get dom n) = "NOSCRIPT" /\
                       data = mkData "NOSCRIPT" (Some []) (Some "")
                   | _ => True end)
    (fst (process_node env dom n src)) /\
  snd (process_node env dom n src) = Ok None.
Proof.
  intros Ht Hns Htag. apply String.eqb_neq in Hns.
  destruct (Source_eqb src ChildListRemove && negb (dom_has env n)) eqn:Hg.
  { unfold process_node. rewrite Hg. split; [constructor|reflexivity]. }
  rewrite process_element by done. unfold element_case. cbv zeta. rewrite Hns.
  remember (getAttributes (get dom n)) as attrs eqn:Ha.
  destruct Htag as [<-|[<-|[<-|[<-|[]]]]]; simpl;
    repeat (case_match; simpl); split; repeat constructor.
Qed.

Lemma content_tags_not_mirrored_witness :
  snd (process_node env0 page 4 Discover) = Ok None /\
  snd (process_node env0 page 3 Discover) = Ok None.
Proof.
  split.
  - exact (proj2 (content_tags_not_mirrored env0 page 4 Discover eq_refl
                    ltac:(vm_compute; discriminate) ltac:(simpl; auto))).
  - exact (proj2 (content_tags_not_mirrored env0 page 3 Discover eq_refl
                    ltac:(vm_compute; discriminate) ltac:(simpl; auto))).
Defined.

(** An element in the SVG namespace is written under the tag
    [svg:] followed by its tag name, with its attributes, whatever that
    name is: none of the special cases (HTML, SCRIPT, STYLE, IFRAME, ...)
    applies to it; its open shadow root is the follow-up node. *)
Theorem svg_elements_generic env dom n src :
  nodeType (get dom n) = ELEMENT_NODE ->
  namespaceURI (get dom n) = Constant.SvgNamespace ->
  Source_eqb src ChildListRemove && negb (dom_has env n) = false ->
  process_node env dom n src =
    ([DomWrite (call_of env n) n (parentNode (get dom n))
        (mkData ("svg:" ++ tagName (get dom n)) (Some (getAttributes (get dom n))) None) src],
     Ok (shadowRoot (get dom n))).
Proof.
  intros Ht Hns Hg. rewrite process_element by done. unfold element_case. cbv zeta.
  rewrite Hns, String.eqb_refl, parent_choice.
  remember (getAttributes (get dom n)) as attrs eqn:Ha. reflexivity.
Qed.

Lemma svg_elements_generic_witness :
  process_node env0 media_page 5 Discover =
    ([DomWrite CallAdd 5 (Some 1) (mkData "svg:circle" (Some [("r", "1")]) None) Discover], Ok None).
Proof. rewrite (svg_elements_generic env0 media_page 5 Discover eq_refl eq_refl eq_refl). reflexivity. Defined.

(** Under Electron, a stylesheet LINK is inlined: when a sheet of
    [document.styleSheets] is owned by it, it is written as a STYLE
    element whose value is that sheet's rules text (empty after a logged
    SecurityError; any other error is logged and raised, with no write);
    when no sheet is owned by it, nothing at all is written. *)
Theorem electron_link_inlined (env : Env) (dom : store) (n : node) (src : Source) :
  nodeType (get dom n) = ELEMENT_NODE ->
  namespaceURI (get dom n) <> Constant.SvgNamespace ->
  tagName (get dom n) = "LINK" -> electron env = true ->
  lookup_attr "rel" (getAttributes (get dom n)) = Some "stylesheet" ->
  Source_eqb src ChildListRemove && negb (dom_has env n) = false ->
  let w v := DomWrite (call_of env n) n (parentNode (get dom n))
               (mkData "STYLE" (Some (getAttributes (get dom n))) (Some v)) src in
  process_node env dom n src =
    match find_sheet n (styleSheets env) with
    | None => ([], Ok None)
    | Some (Rules l) => ([w (concat_css l)], Ok None)
    | Some (Raises e) =>
        if String.eqb e "SecurityError"
        then ([InternalLog CssRulesCode Warning (Some e); w ""], Ok None)
        else ([InternalLog CssRulesCode Warning (Some e)], Throw e)
    end.
Proof.
  intros Ht Hns Htag He Hrel Hg w. rewrite process_element by done. unfold element_case. cbv zeta.
  apply String.eqb_neq in Hns. rewrite Hns, parent_choice, Htag, He, Hrel.
  subst w. remember (getAttributes (get dom n)) as attrs eqn:Ha. simpl.
  destruct (find_sheet n (styleSheets env)) as [[l|e]|]; simpl; [reflexivity| |reflexivity].
  unfold getCssRules. by destruct (String.eqb e "SecurityError").
Qed.

Lemma electron_link_inlined_witness :
  process_node env_electron media_page 6 Discover =
    ([DomWrite CallAdd 6 (Some 1)
        (mkData "STYLE" (Some [("rel", "stylesheet"); ("href", "/app.css")]) (Some "a{}b{}")) Discover],
     Ok None).
Proof.
  rewrite (electron_link_inlined env_electron media_page 6 Discover eq_refl
             ltac:(vm_compute; discriminate) eq_refl eq_refl eq_refl eq_refl).
  reflexivity.
Defined.

(** A mutation of a text node inside a STYLE element is processed as
    a mutation of the STYLE element itself: whenever neither node is
    skipped as an undiscovered removal, processing the text node makes
    the same calls and has the same outcome as processing its STYLE
    parent. *)
Theorem style_text_redirect env dom t p src :
  nodeType (get dom t) = TEXT_NODE -> parentElement dom t = Some p ->
  tagName (get dom p) = "STYLE" -> src <> Discover ->
  Source_eqb src ChildListRemove && negb (dom_has env t) = false ->
  Source_eqb src ChildListRemove && negb (dom_has env p) = false ->
  process_node env dom t src = process_node env dom p src.
Proof.
  intros Ht Hpe Htag Hsrc Hgt Hgp.
  destruct (parentElement_Some _ _ _ Hpe) as [Hpn Hp].
  rewrite (process_element env dom p) by done.
  unfold process_node. rewrite Hgt. cbv zeta.
  rewrite Ht, Hpe, Htag. cbn [NodeType_eqb andb]. rewrite String.eqb_refl.
  replace (negb (Source_eqb src Discover)) with true by (destruct src; simpl; congruence).
  cbn [andb]. rewrite Hpn. simpl. by rewrite Hp.
Qed.

Lemma style_text_redirect_witness :
  process_node env0 media_page 3 CharacterData = process_node env0 media_page 2 CharacterData /\
  snd (process_node env0 media_page 3 CharacterData) = Throw "NetworkError".
Proof.
  assert (H : process_node env0 media_page 3 CharacterData = process_node env0 media_page 2 CharacterData)
    by exact (style_text_redirect env0 media_page 3 2 CharacterData eq_refl eq_refl eq_refl
                ltac:(discriminate) eq_refl eq_refl).
  split; [exact H|]. rewrite H. reflexivity.
Defined.

(** node.ts's attribute extraction yields an object with distinct keys.
    A key on the deny-list is absent, and so is [__proto__] (assigning
    it creates no key); any other key maps to the value of its last
    occurrence among the element's attributes, and an INPUT with no
    [value] attribute and a non-empty live value has [value] mapped to
    that live value. *)
Theorem layout_getAttributes_lookup (d : DNode) (k : string) :
  List.NoDup (map fst (getAttributes d)) /\
  lookup_attr k (getAttributes d) =
    if ignored k || String.eqb k "__proto__" then None
    else match lookup_attr k (rev (attributes d)) with
         | Some v => Some v
         | None => if String.eqb k "value" && String.eqb (tagName d) "INPUT"
                      && negb (String.eqb (input_value d) "")
                   then Some (input_value d) else None
         end.
Proof.
  unfold getAttributes, has_key, Constant.InputTag, Constant.Value. cbv zeta.
  pose proof (fold_set_attr_lookup ignored (attributes d) []) as HL.
  pose proof (fold_set_attr_nodup ignored (attributes d) [] (List.NoDup_nil _)) as HN.
  cbn [lookup_attr] in HL.
  set (out := fold_left (fun out '(name, v) => if ignored name then out else set_attr name v out)
              (attributes d) []) in *.
  assert (Hval : ignored "value" || String.eqb "value" "__proto__" = false) by reflexivity.
  rewrite (HL "value"), Hval.
  destruct (String.eqb (tagName d) "INPUT") eqn:Hin; cbn [andb negb].
  - destruct (lookup_attr "value" (rev (attributes d))) as [v|] eqn:Hv; cbn [andb negb].
    + split; [done|]. rewrite HL. destruct (ignored k || _) eqn:Hk; [done|].
      destruct (lookup_attr k (rev (attributes d))) eqn:Hk'; [done|].
      destruct (String.eqb_spec k "value") as [->|]; [congruence|done].
    + destruct (String.eqb (input_value d) "") eqn:Hiv; cbn [andb negb].
      * split; [done|]. rewrite HL. destruct (ignored k || _); [done|].
        destruct (lookup_attr k (rev (attributes d))); [done|]. by rewrite !andb_false_r.
      * split.
        { by apply nodup_set_attr. }
        rewrite lookup_set_attr_plain by discriminate. rewrite HL.
        destruct (String.eqb_spec k "value") as [->|]; [by rewrite Hval, Hv|].
        destruct (ignored k || _); [done|]. by destruct (lookup_attr k (rev (attributes d))).
  - split; [done|]. rewrite HL. destruct (ignored k || _); [done|].
    destruct (lookup_attr k (rev (attributes d))); [done|]. by rewrite !andb_false_r.
Qed.

End LayoutExtras.
